(** * Verification of the summarisation pipeline of [app.py]

    The development embeds the pure logic of [src/app.py]:
    the transcript chunker of [get_youtube_transcript], the map/reduce
    summariser [generate_summary] and the button handler that classifies
    results and exports them.  External collaborators (the transcript API,
    the LLM chain, the URL loader, the PDF library, the UI toolkit) are taken
    as parameters gathered in a record.

    Python [str] values are sequences of Unicode code points; they are
    modelled as lists of [N].  [len] is [length], [+] is [++]. *)

From Stdlib Require Import String Ascii Decimal DecimalString.
From Stdlib Require Import NArith ZArith QArith Qround Lia Bool List.
Import ListNotations.

Local Open Scope nat_scope.
Local Open Scope list_scope.

(* ------------------------------------------------------------------ *)
(** ** Python strings *)

Module PyStr.

Definition char := N.
Definition str := list char.

(** A source literal, byte by byte (ASCII literals only). *)
Definition lit (s : string) : str :=
  map N_of_ascii (list_ascii_of_string s).

Definition nl : str := [10%N].

(** [s.startswith(p)] *)
Fixpoint startswith (p s : str) : bool :=
  match p, s with
  | [], _ => true
  | _ :: _, [] => false
  | a :: p', b :: s' => N.eqb a b && startswith p' s'
  end.

(** [p in s] *)
Fixpoint contains (p s : str) : bool :=
  startswith p s ||
  match s with
  | [] => false
  | _ :: s' => contains p s'
  end.

(** [sep.join(l)] *)
Fixpoint join (sep : str) (l : list str) : str :=
  match l with
  | [] => []
  | [x] => x
  | x :: rest => x ++ sep ++ join sep rest
  end.

(** [s.split(sep)] for a non-empty [sep]: scan from the left, cut at each
    occurrence of [sep] and resume after it.  [skip] counts the characters
    of a matched separator still to be passed over; [cur] is the piece
    being collected. *)
Fixpoint split_from (sep : str) (skip : nat) (cur s : str) : list str :=
  match s with
  | [] => [cur]
  | c :: s' =>
      match skip with
      | S k => split_from sep k cur s'
      | O =>
          if startswith sep s
          then cur :: split_from sep (length sep - 1) [] s'
          else split_from sep O (cur ++ [c]) s'
      end
  end.

Definition split (sep s : str) : list str := split_from sep 0 [] s.

(** [c.isspace()] on one code point: the Unicode white-space set that
    [str.strip()] removes. *)
Definition isspace (c : char) : bool :=
  existsb (N.eqb c)
    [9; 10; 11; 12; 13; 28; 29; 30; 31; 32; 133; 160; 5760;
     8192; 8193; 8194; 8195; 8196; 8197; 8198; 8199; 8200; 8201; 8202;
     8232; 8233; 8239; 8287; 12288]%N.

Fixpoint lstrip (s : str) : str :=
  match s with
  | [] => []
  | c :: s' => if isspace c then lstrip s' else s
  end.

(** [s.strip()] *)
Definition strip (s : str) : str := rev (lstrip (rev (lstrip s))).

(** Truth value of a string: non-empty. *)
Definition truthy (s : str) : bool :=
  match s with [] => false | _ :: _ => true end.

(** Decimal digits of a natural number, as [str(n)]. *)
Definition dec (n : N) : str := lit (NilZero.string_of_uint (N.to_uint n)).

(** [format(z, "02d")]: sign-aware zero padding to width two. *)
Definition fmt_02d (z : Z) : str :=
  if (z <? 0)%Z then lit "-" ++ dec (Z.to_N (- z))
  else
    let d := dec (Z.to_N z) in
    if length d <? 2 then lit "0" ++ d else d.

(** [int(q)]: truncation towards zero. *)
Definition py_int (q : Q) : Z :=
  if Qle_bool 0 q then Qfloor q else Qceiling q.

End PyStr.
Import PyStr.

(* ------------------------------------------------------------------ *)
(** ** Python floats

    A Python [float] is an IEEE binary64 number.  A finite one is modelled
    by the rational it denotes, and an arithmetic operation by the exact
    operation followed by rounding to the nearest double, ties to even.
    The operations the program applies to [part.start] (division by 60,
    floor division and remainder by 60) cannot overflow on a finite
    double, so infinities never arise there. *)

Module PyFloat.

(** [num / den] rounded to the nearest integer, ties to even. *)
Definition round_ne (num : Z) (den : positive) : Z :=
  let f := (num / Z.pos den)%Z in
  match (2 * (num mod Z.pos den) ?= Z.pos den)%Z with
  | Lt => f
  | Gt => (f + 1)%Z
  | Eq => if Z.even f then f else (f + 1)%Z
  end.

(** [2^1074]: every double is a whole number of steps of [2^-1074]. *)
Definition steps : positive := Z.to_pos (2 ^ 1074).

(** The unit in the last place of a positive [a / d], as a number [2^w]
    of steps: with [l = floor(log2 (a / d)) + 1126], [w = max (l - 104) 0],
    that is 53 bits of precision and never finer than one step (subnormal
    numbers). *)
Definition ulp_w (a : Z) (d : positive) : Z :=
  Z.max (Z.log2 ((a * 2 ^ 1126) / Z.pos d) - 104) 0.

(** The double nearest to a rational, ties to even: [|q|] is rounded to a
    whole number of units in the last place. *)
Definition fl (q : Q) : Q :=
  let a := Z.abs (Qnum q) in
  let d := Qden q in
  let w := ulp_w a d in
  let k := round_ne (a * 2 ^ 1074) (d * Z.to_pos (2 ^ w)) in
  (Z.sgn (Qnum q) * k * 2 ^ w) # steps.

(** A rational that is the value of a double. *)
Definition is_double (q : Q) : bool := Qeq_bool (fl q) q.

(** [a + b], [a - b], [a / b] on doubles. *)
Definition fadd (a b : Q) : Q := fl (a + b).
Definition fsub (a b : Q) : Q := fl (a - b).
Definition fdiv (a b : Q) : Q := fl (a / b).

Definition is_zero (q : Q) : bool := Qeq_bool q 0.
Definition is_neg (q : Q) : bool := negb (Qle_bool 0 q).
Definition gt_bool (a b : Q) : bool := negb (Qle_bool a b).

(** C's [fmod(x, y)]: [x - n * y] with [n] the quotient truncated towards
    zero; the result is exact. *)
Definition fmod (x y : Q) : Q := x - y * inject_Z (py_int (x / y)).

(** [vx % wx] for [wx <> 0], as [float_rem] computes it: the remainder
    takes the sign of the divisor. *)
Definition float_mod (vx wx : Q) : Q :=
  let m := fmod vx wx in
  if is_zero m then 0
  else if xorb (is_neg wx) (is_neg m) then fadd m wx else m.

(** [vx // wx] for [wx <> 0], as [float_floor_div] computes it: the
    quotient [(vx - mod) / wx], lowered by one when the remainder changed
    sign, then snapped to the nearest integral value. *)
Definition float_floordiv (vx wx : Q) : Q :=
  let m := fmod vx wx in
  let div0 := fdiv (fsub vx m) wx in
  let div :=
    if negb (is_zero m) && xorb (is_neg wx) (is_neg m)
    then fsub div0 1 else div0 in
  if is_zero div then 0
  else
    let f := inject_Z (Qfloor div) in
    if gt_bool (fsub div f) (1 # 2) then fadd f 1 else f.

End PyFloat.
Import PyFloat.

(* ------------------------------------------------------------------ *)
(** ** The chunker loop of [get_youtube_transcript] (lines 177-198) *)

Module Chunker.

(** One fetched transcript snippet: [part.start] (seconds) and [part.text].
    The float [start] is given by the rational it denotes. *)
Record Part := { start : Q; text : str }.

(** The chunk separator ["\n---\n"] written at line 188 and split on at
    line 228. *)
Definition marker : str := nl ++ lit "---" ++ nl.

Definition max_chunk_size : nat := 4000.

(** [part.start // 60] and [part.start % 60], in double arithmetic. *)
Definition floordiv60 (q : Q) : Q := float_floordiv q (inject_Z 60).
Definition mod60 (q : Q) : Q := float_mod q (inject_Z 60).

(** Line 184:
    [f"[{int(part.start//60):02d}:{int(part.start%60):02d}] {part.text}\n"] *)
Definition text_with_timestamp (part : Part) : str :=
  lit "[" ++ fmt_02d (py_int (floordiv60 (start part))) ++ lit ":"
    ++ fmt_02d (py_int (mod60 (start part))) ++ lit "] "
    ++ text part ++ nl.

(** The [for part in transcript_parts] loop with its three variables
    [formatted_text], [current_chunk], [chunk_size]; the result is the
    value of [formatted_text] after line 196.  The budget is a parameter
    [B]; the source fixes it to [max_chunk_size]. *)
Fixpoint chunk_loop (B : nat) (formatted_text current_chunk : str)
    (chunk_size : nat) (transcript_parts : list Part) : str :=
  match transcript_parts with
  | [] => formatted_text ++ current_chunk
  | part :: rest =>
      let twt := text_with_timestamp part in
      if B <? chunk_size + length twt
      then chunk_loop B (formatted_text ++ (current_chunk ++ marker))
             twt (length twt) rest
      else chunk_loop B formatted_text
             (current_chunk ++ twt) (chunk_size + length twt) rest
  end.

Definition format_transcript (B : nat) (transcript_parts : list Part) : str :=
  chunk_loop B [] [] 0 transcript_parts.

(** The chunks the loop closes, in order: every value of [current_chunk]
    that line 188 writes out, then the last one (line 196).  This is the
    same loop collecting the chunks in a list instead of gluing them with
    [marker]; [chunk_loop_join] below relates the two. *)
Fixpoint chunks_from (B : nat) (current_chunk : str) (chunk_size : nat)
    (transcript_parts : list Part) : list str :=
  match transcript_parts with
  | [] => [current_chunk]
  | part :: rest =>
      let twt := text_with_timestamp part in
      if B <? chunk_size + length twt
      then current_chunk :: chunks_from B twt (length twt) rest
      else chunks_from B (current_chunk ++ twt) (chunk_size + length twt) rest
  end.

Definition chunks (B : nat) (transcript_parts : list Part) : list str :=
  chunks_from B [] 0 transcript_parts.

(** The text being chunked: the formatted lines one after the other. *)
Definition source_text (transcript_parts : list Part) : str :=
  concat (map text_with_timestamp transcript_parts).

(** Lines 228-231 of [generate_summary]: the pieces of a document between
    markers, and those of them that are summarised. *)
Definition nonblank (chunk : str) : bool := truthy (strip chunk).

Definition split_chunks (content : str) : list str := split marker content.

Definition summarised_chunks (content : str) : list str :=
  filter nonblank (split_chunks content).

End Chunker.
Import Chunker.


(* ------------------------------------------------------------------ *)
(** ** Exceptions, the run state and the external collaborators *)

Module Py.

Inductive exn_class :=
| TranscriptsDisabled | NoTranscriptFound | IndexError | UnicodeEncodeError
| OtherException.

(** An exception value: its class (what [except C] tests) and [str(e)]. *)
Record exn := { exn_type : exn_class; exn_str : str }.

Inductive outcome (A : Type) :=
| Return (a : A)
| Raise (e : exn).
Arguments Return {A} a.
Arguments Raise {A} e.

Record Document := { page_content : str }.

(** One call of a summarize chain: the prompt template and the text put in
    its [{text}] slot. *)
Definition call := (str * str)%type.

Inductive payload :=
| TextData (s : str)
| BytesData (b : list N).

(** What the page shows. *)
Inductive ui_event :=
| st_error (body : str)
| st_markdown (body : str)
| st_exception (body : str)
| st_download_button (label : str) (data : payload) (file_name mime : str).

(** The state one run threads: the LLM calls made so far, the elements
    rendered so far and [st.session_state.processing]. *)
Record session := {
  llm_calls : list call;
  ui : list ui_event;
  processing : bool
}.

Definition M (A : Type) := session -> outcome A * session.

Definition ret {A} (a : A) : M A := fun s => (Return a, s).

Definition raise {A} (e : exn) : M A := fun s => (Raise e, s).

Definition bind {A B} (m : M A) (k : A -> M B) : M B :=
  fun s =>
    match m s with
    | (Return a, s') => k a s'
    | (Raise e, s') => (Raise e, s')
    end.

Definition lift {A} (o : outcome A) : M A := fun s => (o, s).

(** [try: m  except Exception as e: h e] *)
Definition try_except {A} (m : M A) (h : exn -> M A) : M A :=
  fun s =>
    match m s with
    | (Return a, s') => (Return a, s')
    | (Raise e, s') => h e s'
    end.

(** [try: m  finally: f] *)
Definition try_finally {A} (m : M A) (f : M unit) : M A :=
  fun s =>
    let (r, s') := m s in
    match f s' with
    | (Return _, s'') => (r, s'')
    | (Raise e, s'') => (Raise e, s'')
    end.

Declare Scope py_scope.
Delimit Scope py_scope with py.
Notation "x <- m ;; k" := (bind m (fun x => k))
  (at level 61, m at next level, right associativity) : py_scope.
Notation "m ;;; k" := (bind m (fun _ => k))
  (at level 61, right associativity) : py_scope.

Definition emit (e : ui_event) : M unit :=
  fun s =>
    (Return tt,
     {| llm_calls := llm_calls s; ui := ui s ++ [e];
        processing := processing s |}).

Definition set_processing (b : bool) : M unit :=
  fun s =>
    (Return tt, {| llm_calls := llm_calls s; ui := ui s; processing := b |}).

(** A transcript object of the transcript API: its language and what
    [fetch()] gives. *)
Record Transcript := {
  language_code : str;
  fetch : outcome (list Part)
}.

(** The collaborators outside the repository.  [llm_complete] answers a
    chain call and may depend on the calls made before it; the others
    answer the same way throughout one run. *)
Record World := {
  validators_url : str -> bool;
  list_transcripts : str -> outcome (list Transcript);
  loader_load : str -> outcome (list Document);
  llm_complete : list call -> call -> outcome str;
  (* the FPDF calls of lines 329-349 up to [pdf.output(dest='S')], from
     the body text, the "Generated on" line and the "Source" line *)
  fpdf_output : str -> str -> str -> outcome str;
  (* [datetime.now().strftime(fmt)] *)
  strftime_now : str -> str;
  (* [str(e)] of the error [encode('latin-1')] raises on a given string *)
  codec_error_message : str -> str
}.

Fixpoint str_eqb (a b : str) : bool :=
  match a, b with
  | [], [] => true
  | x :: a', y :: b' => N.eqb x y && str_eqb a' b'
  | _, _ => false
  end.

(** [s.encode('latin-1')]: defined when every code point is below 256. *)
Definition encode_latin1 (s : str) : option (list N) :=
  if forallb (fun c => (c <? 256)%N) s then Some s else None.

End Py.
Import Py.
Local Open Scope py_scope.

(* ------------------------------------------------------------------ *)
(** ** The functions of [app.py] *)

Module App.

(** *** [extract_video_id] (lines 117-133)

    [re.search] on a string raises nothing, so the [except] clause of the
    function is never entered. *)

(** The character class [[0-9A-Za-z_-]]. *)
Definition is_id_char (c : char) : bool :=
  ((48 <=? c) && (c <=? 57) || (65 <=? c) && (c <=? 90)
   || (97 <=? c) && (c <=? 122) || (c =? 95) || (c =? 45))%N.

(** [([0-9A-Za-z_-]{n})] at the head of [s]: the captured group. *)
Fixpoint take_id (n : nat) (s : str) : option str :=
  match n with
  | O => Some []
  | S k =>
      match s with
      | c :: s' =>
          if is_id_char c then option_map (cons c) (take_id k s') else None
      | [] => None
      end
  end.

(** A pattern [(?:p1|p2|...)([0-9A-Za-z_-]{11})] tried at the head of [s]:
    the alternatives in order. *)
Fixpoint match_here (alts : list str) (s : str) : option str :=
  match alts with
  | [] => None
  | p :: alts' =>
      match (if startswith p s then take_id 11 (skipn (length p) s)
             else None) with
      | Some g => Some g
      | None => match_here alts' s
      end
  end.

(** [re.search]: the leftmost position where the pattern matches; the
    result is [match.group(1)]. *)
Fixpoint re_search (alts : list str) (s : str) : option str :=
  match match_here alts s with
  | Some g => Some g
  | None =>
      match s with
      | [] => None
      | _ :: s' => re_search alts s'
      end
  end.

(** The three patterns of lines 120-124; a trailing [.*] always matches. *)
Definition patterns : list (list str) :=
  [ [lit "v="; lit "/"];
    [lit "youtu.be/"];
    [lit "youtube.com/embed/"] ].

Fixpoint first_match (pats : list (list str)) (url : str) : option str :=
  match pats with
  | [] => None
  | alts :: rest =>
      match re_search alts url with
      | Some g => Some g
      | None => first_match rest url
      end
  end.

Definition extract_video_id (url : str) : option str :=
  first_match patterns url.

(** *** Messages and templates *)

Definition Qlt_bool (a b : Q) : bool := negb (Qle_bool b a).

(** Rounding to the nearest integer, ties to even. *)
Definition round_half_even (q : Q) : Z :=
  let f := Qfloor q in
  match Qcompare (q - inject_Z f) (1 # 2) with
  | Lt => f
  | Gt => (f + 1)%Z
  | Eq => if Z.even f then f else (f + 1)%Z
  end.

(** [format(q, ".1f")] for a double [q >= 0], given by its exact value:
    the decimal expansion of the double rounded to one place, ties to
    even (its one use is guarded by [duration_minutes > 30]). *)
Definition fmt_1f (q : Q) : str :=
  let n := round_half_even (q * inject_Z 10) in
  dec (Z.to_N (n / 10)) ++ lit "." ++ dec (Z.to_N (n mod 10)).

(** Line 160. *)
Definition duration_message (duration_minutes : Q) : str :=
  lit "Video duration (" ++ fmt_1f duration_minutes
    ++ lit " minutes) exceeds the 30-minute limit. Please use a shorter video or segment.".

Definition invalid_url_message : str := lit "Invalid YouTube URL".
Definition no_transcript_message : str :=
  lit "No transcript found for this video.".
Definition disabled_message : str :=
  lit "Transcripts are disabled for this video.".
Definition unavailable_message : str :=
  lit "No transcripts available for this video.".

Definition lines (l : list str) : str := join nl l.

Definition indent16 : str := lit "                ".

(** Lines 257-270. *)
Definition prompt_template : str :=
  lines
    [ [];
      lit "Please provide a detailed and comprehensive summary of the following content in 800-1000 words. ";
      lit "Include:";
      lit "1. Main points and key ideas";
      lit "2. Important details and examples";
      lit "3. Technical concepts (if any)";
      lit "4. Key conclusions or takeaways";
      lit "5. Supporting arguments or evidence";
      [];
      lit "Do not add information that is not present in the original text.";
      lit "If the content is technical, maintain the technical accuracy. If it's a conversation, preserve the main discussion points.";
      [];
      lit "Content: {text}";
      [] ].

(** Lines 241-244: the template of [final_prompt]. *)
Definition final_template : str :=
  lines
    [ lit "Create a coherent and concise final summary of the following content in 300 words. ";
      indent16 ++ lit "Combine the key points and main ideas from all sections:";
      indent16 ++ lit "Content: {text}";
      indent16 ].

(** U+26A0 U+FE0F, U+274C, U+1F4CB, U+1F4E5, U+1F4C4 *)
Definition warning_sign : str := [9888; 65039]%N.
Definition cross_mark : str := [10060]%N.
Definition clipboard : str := [128203]%N.
Definition inbox_tray : str := [128229]%N.
Definition page_facing_up : str := [128196]%N.

Section WithWorld.

Variable w : World.

(** *** [get_video_duration] (lines 135-148) *)

(** [transcript_list.find_transcript(codes)]: the first transcript, in the
    list's order, of the first code that has one; [NoTranscriptFound]
    otherwise (its message is never read by the program). *)
Fixpoint find_transcript (transcript_list : list Transcript)
    (language_codes : list str) : outcome Transcript :=
  match language_codes with
  | [] => Raise {| exn_type := NoTranscriptFound; exn_str := [] |}
  | code :: codes =>
      match find (fun t => str_eqb (language_code t) code) transcript_list with
      | Some t => Return t
      | None => find_transcript transcript_list codes
      end
  end.

(** The [try] body; the bare [except] turns any exception into [0]. *)
Definition get_video_duration (video_id : str) : Q :=
  match list_transcripts w video_id with
  | Raise _ => 0
  | Return transcript_list =>
      match find_transcript transcript_list [lit "en"] with
      | Raise _ => 0
      | Return transcript =>
          match fetch transcript with
          | Raise _ => 0
          | Return transcript_parts =>
              match transcript_parts with
              | [] => 0
              | p :: rest =>
                  let last_part := last rest p in
                  fdiv (start last_part) (inject_Z 60)
              end
          end
      end
  end.

(** *** [get_youtube_transcript] (lines 150-205) *)

Definition get_youtube_transcript_try (video_url : str) : outcome str :=
  match extract_video_id video_url with
  | None => Return invalid_url_message
  | Some video_id =>
      let duration_minutes := get_video_duration video_id in
      if Qlt_bool (inject_Z 30) duration_minutes
      then Return (duration_message duration_minutes)
      else
        match list_transcripts w video_id with
        | Raise e => Raise e
        | Return transcript_list =>
            let transcript :=
              match find_transcript transcript_list [lit "en"] with
              | Return t => Some t
              | Raise _ => hd_error transcript_list
              end in
            match transcript with
            | None => Return no_transcript_message
            | Some t =>
                match fetch t with
                | Raise e => Raise e
                | Return transcript_parts =>
                    Return (format_transcript max_chunk_size transcript_parts)
                end
            end
        end
  end.

Definition get_youtube_transcript (video_url : str) : str :=
  match get_youtube_transcript_try video_url with
  | Return s => s
  | Raise e =>
      match exn_type e with
      | TranscriptsDisabled => disabled_message
      | NoTranscriptFound => unavailable_message
      | _ => lit "Error retrieving transcript: " ++ exn_str e
      end
  end.

(** *** [process_website] (lines 207-219): a list of documents, or a
    string on failure. *)
Definition process_website (url : str) : str + list Document :=
  match loader_load w url with
  | Return docs => inr docs
  | Raise e => inl (lit "Error processing website: " ++ exn_str e)
  end.

(** *** [generate_summary] (lines 221-254) *)

(** [load_summarize_chain(llm, chain_type="stuff", prompt=p).run([doc])] *)
Definition chain_run (template text : str) : M str :=
  fun s =>
    (llm_complete w (llm_calls s) (template, text),
     {| llm_calls := llm_calls s ++ [(template, text)]; ui := ui s;
        processing := processing s |}).

(** The inner loop, lines 230-235. *)
Fixpoint summarize_chunks (prompt : str) (chunks : list str)
    (all_summaries : list str) : M (list str) :=
  match chunks with
  | [] => ret all_summaries
  | chunk :: rest =>
      if truthy (strip chunk)
      then chunk_summary <- chain_run prompt chunk ;;
           summarize_chunks prompt rest (all_summaries ++ [chunk_summary])
      else summarize_chunks prompt rest all_summaries
  end.

(** The outer loop, lines 226-235. *)
Fixpoint summarize_docs (prompt : str) (docs : list Document)
    (all_summaries : list str) : M (list str) :=
  match docs with
  | [] => ret all_summaries
  | doc :: rest =>
      let content := page_content doc in
      let chunks := split marker content in
      all <- summarize_chunks prompt chunks all_summaries ;;
      summarize_docs prompt rest all
  end.

(** [all_summaries[0]] *)
Definition index0 (l : list str) : M str :=
  match l with
  | x :: _ => ret x
  | [] => raise {| exn_type := IndexError;
                   exn_str := lit "list index out of range" |}
  end.

(** Lines 238-251. *)
Definition combine (all_summaries : list str) : M str :=
  if 1 <? length all_summaries
  then chain_run final_template (join (nl ++ nl) all_summaries)
  else index0 all_summaries.

(** The [try] body, lines 224-251. *)
Definition generate_summary_try (docs : list Document) (prompt : str)
  : M str :=
  all_summaries <- summarize_docs prompt docs [] ;;
  combine all_summaries.

Definition generate_summary (docs : list Document) (prompt : str) : M str :=
  try_except (generate_summary_try docs prompt)
    (fun e => ret (lit "Error generating summary: " ++ exn_str e)).

(** *** The button handler (lines 276-364) *)

Definition is_youtube (generic_url : str) : bool :=
  contains (lit "youtube.com") generic_url
  || contains (lit "youtu.be") generic_url.

(** The failure test of line 295. *)
Definition transcript_failed (transcript_text : str) : bool :=
  contains (lit "Error") transcript_text
  || contains (lit "No transcript") transcript_text.

(** Lines 293-303: the value of [docs] ([[]] initially, line 273). *)
Definition load_docs (generic_url : str) : M (list Document) :=
  if is_youtube generic_url
  then
    let transcript_text := get_youtube_transcript generic_url in
    if transcript_failed transcript_text
    then emit (st_error transcript_text) ;;; ret []
    else ret [ {| page_content := transcript_text |} ]
  else
    match process_website generic_url with
    | inl message => emit (st_error message) ;;; ret []
    | inr docs => ret docs
    end.

Definition file_name (ext : str) : str :=
  lit "detailed_summary_" ++ strftime_now w (lit "%Y%m%d_%H%M%S") ++ ext.

(** Lines 329-349: the PDF bytes, or the exception the library or the
    final [encode('latin-1')] raises. *)
Definition make_pdf (generic_url output_summary : str) : M (list N) :=
  pdf_text <- lift (fpdf_output w output_summary
                      (lit "Generated on: "
                         ++ strftime_now w (lit "%Y-%m-%d %H:%M:%S"))
                      (lit "Source: " ++ generic_url)) ;;
  match encode_latin1 pdf_text with
  | Some pdf_bytes => ret pdf_bytes
  | None => raise {| exn_type := UnicodeEncodeError;
                     exn_str := codec_error_message w pdf_text |}
  end.

(** Lines 311-357: display and the two download buttons. *)
Definition export_summary (generic_url output_summary : str) : M unit :=
  emit (st_markdown (lit "### " ++ clipboard ++ lit " Detailed Summary")) ;;;
  emit (st_markdown output_summary) ;;;
  emit (st_download_button (inbox_tray ++ lit " Download as Text")
          (TextData output_summary) (file_name (lit ".txt"))
          (lit "text/plain")) ;;;
  pdf_bytes <- make_pdf generic_url output_summary ;;
  emit (st_download_button (page_facing_up ++ lit " Download as PDF")
          (BytesData pdf_bytes) (file_name (lit ".pdf"))
          (lit "application/pdf")).

(** Lines 305-359. *)
Definition present (generic_url : str) (docs : list Document) : M unit :=
  match docs with
  | [] =>
      emit (st_error (cross_mark
              ++ lit " Could not process the content. Please try again."))
  | _ :: _ =>
      output_summary <- generate_summary docs prompt_template ;;
      if contains (lit "Error") output_summary
      then emit (st_error output_summary)
      else export_summary generic_url output_summary
  end.

(** The [try] body, lines 283-359.  Building the LLM client and the prompt
    object (lines 288-291) and the calls of the UI toolkit are taken to
    succeed. *)
Definition summarize_try (generic_url : str) : M unit :=
  set_processing true ;;;
  docs <- load_docs generic_url ;;
  present generic_url docs.

(** The whole handler, run when the button is pressed. *)
Definition summarize_button (generic_url : str) : M unit :=
  if negb (truthy (strip generic_url))
  then emit (st_error (warning_sign
               ++ lit " Please provide a URL to get started."))
  else if negb (validators_url w generic_url)
  then emit (st_error (warning_sign
               ++ lit " Please enter a valid URL (YouTube or Website)."))
  else
    try_finally
      (try_except (summarize_try generic_url)
         (fun e => emit (st_exception
                           (cross_mark ++ lit " An error occurred: "
                              ++ exn_str e))))
      (set_processing false).

End WithWorld.

(** A fresh run. *)
Definition session0 : session :=
  {| llm_calls := []; ui := []; processing := false |}.

End App.
Import App.


(* ------------------------------------------------------------------ *)
(** ** Predicates used in the statements *)

Module Spec.

(** No occurrence of [sep] starts inside [a] when [a] is followed by [t]. *)
Definition occ_free (sep a t : str) : Prop :=
  forall a1 a2, a = a1 ++ a2 -> a2 <> [] -> startswith sep (a2 ++ t) = false.

(** A string that is empty or ends with a newline, followed by nothing or
    by a character other than ['-'], hides no marker across the seam. *)
Definition ends_nl (a : str) : Prop := a = [] \/ exists a', a = a' ++ nl.
Definition starts_not_dash (t : str) : Prop :=
  t = [] \/ exists c t', t = c :: t' /\ c <> 45%N.
Definition starts_bracket (c : str) : Prop :=
  c = [] \/ exists c', c = 91%N :: c'.

Record wf_chunk (c : str) : Prop := {
  wf_no_marker : contains marker c = false;
  wf_end : ends_nl c;
  wf_start : starts_bracket c
}.

(** The formatted line of a snippet does not contain the chunk marker. *)
Definition marker_free (p : Part) : Prop :=
  contains marker (text_with_timestamp p) = false.

(** A chunk respects the budget, or is one oversized line on its own. *)
Definition within_budget (B : nat) (parts : list Part) (c : str) : Prop :=
  length c <= B
  \/ exists p, In p parts /\ c = text_with_timestamp p /\ B < length c.

(** The chunks of all documents that get summarised, in order. *)
Definition segments (docs : list Document) : list str :=
  concat (map (fun doc => summarised_chunks (page_content doc)) docs).

(** [answers w prompt log chunks sums]: called on [chunks] one after the
    other with template [prompt], starting from the call history [log], the
    LLM returns [sums], one by one and in that order. *)
Inductive answers (w : World) (prompt : str)
  : list call -> list str -> list str -> Prop :=
| answers_nil log : answers w prompt log [] []
| answers_cons log chunk chunks r sums :
    llm_complete w log (prompt, chunk) = Return r ->
    answers w prompt (log ++ [(prompt, chunk)]) chunks sums ->
    answers w prompt log (chunk :: chunks) (r :: sums).

(** The session [s] with [calls] added to its LLM calls. *)
Definition with_calls (s : session) (calls : list call) : session :=
  {| llm_calls := llm_calls s ++ calls; ui := ui s;
     processing := processing s |}.

(** The session [s] with [events] added to the page. *)
Definition with_ui (s : session) (events : list ui_event) : session :=
  {| llm_calls := llm_calls s; ui := ui s ++ events;
     processing := processing s |}.

(** The three results of [get_youtube_transcript] that report a failure
    without the words the handler looks for. *)
Inductive unflagged_error : str -> Prop :=
| unflagged_disabled : unflagged_error disabled_message
| unflagged_invalid : unflagged_error invalid_url_message
| unflagged_duration d : unflagged_error (duration_message d).

(** What follows the text download button: the PDF button, or the report
    of the exception raised while the PDF was made. *)
Definition pdf_events (w : World) (generic_url output_summary : str)
  : list ui_event :=
  match fst (make_pdf w generic_url output_summary session0) with
  | Return pdf_bytes =>
      [st_download_button (page_facing_up ++ lit " Download as PDF")
         (BytesData pdf_bytes) (file_name w (lit ".pdf"))
         (lit "application/pdf")]
  | Raise e =>
      [st_exception (cross_mark ++ lit " An error occurred: " ++ exn_str e)]
  end.

(** [c] does not occur in [s]. *)
Definition lacks (c : char) (s : str) : bool :=
  forallb (fun x => negb (N.eqb c x)) s.

Definition is_digit (c : char) : bool := ((48 <=? c) && (c <=? 57))%N.

(** The run state with the processing flag raised (line 283). *)
Definition started (s : session) : session :=
  {| llm_calls := llm_calls s; ui := ui s; processing := true |}.

(** The run state after the [finally] clause (line 364). *)
Definition finished (s : session) : session :=
  {| llm_calls := llm_calls s; ui := ui s; processing := false |}.

(** The heading of line 312. *)
Definition header : str := lit "### " ++ clipboard ++ lit " Detailed Summary".

(** What the page gains once [generate_summary] has returned [out]. *)
Definition shown (w : World) (generic_url out : str) : list ui_event :=
  if contains (lit "Error") out
  then [st_error out]
  else [st_markdown header; st_markdown out;
        st_download_button (inbox_tray ++ lit " Download as Text")
          (TextData out) (file_name w (lit ".txt")) (lit "text/plain")]
       ++ pdf_events w generic_url out.

(** What [generate_summary] returns when [all_summaries[0]] fails. *)
Definition index_error_message : str :=
  lit "Error generating summary: list index out of range".

End Spec.
Import Spec.

(* ------------------------------------------------------------------ *)
(** ** Concrete runs *)

Module Examples.

Definition exn_of (c : exn_class) (message : str) : exn :=
  {| exn_type := c; exn_str := message |}.

(** A world where every URL is valid, no video has transcripts enabled,
    pages load empty, the LLM answers ["summary"] and the PDF library
    returns the body text as the document. *)
Definition base_world : World :=
  {| validators_url := fun _ => true;
     list_transcripts :=
       fun _ => Raise (exn_of TranscriptsDisabled (lit "disabled"));
     loader_load := fun _ => Return [];
     llm_complete := fun _ _ => Return (lit "summary");
     fpdf_output := fun body _ _ => Return body;
     strftime_now := fun _ => lit "20240101_120000";
     codec_error_message := fun _ => lit "ordinal not in range(256)" |}.

Definition with_transcripts (w : World)
    (f : str -> outcome (list Transcript)) : World :=
  {| validators_url := validators_url w;
     list_transcripts := f;
     loader_load := loader_load w;
     llm_complete := llm_complete w;
     fpdf_output := fpdf_output w;
     strftime_now := strftime_now w;
     codec_error_message := codec_error_message w |}.

Definition with_pages (w : World)
    (f : str -> outcome (list Document)) : World :=
  {| validators_url := validators_url w;
     list_transcripts := list_transcripts w;
     loader_load := f;
     llm_complete := llm_complete w;
     fpdf_output := fpdf_output w;
     strftime_now := strftime_now w;
     codec_error_message := codec_error_message w |}.

Definition with_llm (w : World)
    (f : list call -> call -> outcome str) : World :=
  {| validators_url := validators_url w;
     list_transcripts := list_transcripts w;
     loader_load := loader_load w;
     llm_complete := f;
     fpdf_output := fpdf_output w;
     strftime_now := strftime_now w;
     codec_error_message := codec_error_message w |}.

Definition video_url : str :=
  lit "https://www.youtube.com/watch?v=dQw4w9WgXcQ".
Definition page_url : str := lit "https://example.com/post".
Definition bare_youtube_url : str := lit "https://www.youtube.com/".

(** Two short snippets, at 62.5 s. *)
Definition hello : Part := {| start := 125 # 2; text := lit "hello" |}.

(** A snippet whose text contains the chunk marker. *)
Definition ruled : Part :=
  {| start := 0; text := lit "a" ++ marker ++ lit "b" |}.

(** A video with a Spanish transcript only, one hour long. *)
Definition hola : Part := {| start := 0; text := lit "hola" |}.
Definition adios : Part := {| start := inject_Z 3600; text := lit "adios" |}.
Definition spanish_only : World :=
  with_transcripts base_world
    (fun _ => Return [ {| language_code := lit "es";
                          fetch := Return [hola; adios] |} ]).

(** A video with an English transcript, one hour long. *)
Definition english_long : World :=
  with_transcripts base_world
    (fun _ => Return [ {| language_code := lit "en";
                          fetch := Return [hola; adios] |} ]).

(** A page made of one document. *)
Definition one_page (content : str) : World :=
  with_pages base_world (fun _ => Return [ {| page_content := content |} ]).

(** A page of three chunks; the LLM answers the first-pass calls with
    ["A"], ["B"], ["C"] according to the chunk, and anything else with
    ["final"]. *)
Definition three_chunks : str :=
  lit "one" ++ marker ++ lit "two" ++ marker ++ lit "three".

Definition abc_llm (log : list call) (c : call) : outcome str :=
  if str_eqb (snd c) (lit "one") then Return (lit "A")
  else if str_eqb (snd c) (lit "two") then Return (lit "B")
  else if str_eqb (snd c) (lit "three") then Return (lit "C")
  else Return (lit "final").

Definition abc_world : World := with_llm (one_page three_chunks) abc_llm.

(** A page whose summary mentions the word "Error". *)
Definition error_talk : str := lit "Error handling was the main topic.".
Definition error_talk_world : World :=
  with_llm (one_page (lit "a talk about exceptions"))
    (fun _ _ => Return error_talk).

(** A page whose summary has a right single quotation mark, U+2019. *)
Definition curly : str := lit "It" ++ [8217%N] ++ lit "s fine.".
Definition curly_world : World :=
  with_llm (one_page (lit "some page")) (fun _ _ => Return curly).

End Examples.
Import Examples.

(* ------------------------------------------------------------------ *)
(** ** Further concrete runs and predicates *)

Module MoreExamples.

Definition slash : char := 47%N.

Definition sample_id : str := lit "dQw4w9WgXcQ".

Definition watch_prefix : str := lit "https://www.youtube.com/watch?v=".
Definition short_prefix : str := lit "https://youtu.be/".

(** The first pattern of [extract_video_id]. *)
Definition first_pattern : list str := [lit "v="; [slash]].

(** The message of line 359. *)
Definition could_not_process : str :=
  cross_mark ++ lit " Could not process the content. Please try again.".

(** The messages of lines 278 and 280. *)
Definition provide_url : str :=
  warning_sign ++ lit " Please provide a URL to get started.".
Definition enter_valid_url : str :=
  warning_sign ++ lit " Please enter a valid URL (YouTube or Website).".

(** A video with an English transcript whose last snippet starts at
    exactly 1800 s. *)
Definition fin : Part := {| start := inject_Z 1800; text := lit "fin" |}.
Definition english_at_limit : World :=
  with_transcripts base_world
    (fun _ => Return [ {| language_code := lit "en";
                          fetch := Return [hola; fin] |} ]).

(** A video with no transcript at all, and one whose English transcript
    has no snippet. *)
Definition no_transcripts : World :=
  with_transcripts base_world (fun _ => Return []).
Definition empty_transcript : World :=
  with_transcripts base_world
    (fun _ => Return [ {| language_code := lit "en"; fetch := Return [] |} ]).

(** A video whose English transcript talks about errors. *)
Definition error_lesson : Part :=
  {| start := 0; text := lit "Error handling in Python" |}.
Definition error_lesson_world : World :=
  with_transcripts base_world
    (fun _ => Return [ {| language_code := lit "en";
                          fetch := Return [error_lesson] |} ]).

(** A page that cannot be loaded. *)
Definition unreachable_page : World :=
  with_pages base_world
    (fun _ => Raise (exn_of OtherException (lit "timed out"))).

(** A page of three chunks where the LLM fails on the second one. *)
Definition failing_llm (log : list call) (c : call) : outcome str :=
  if str_eqb (snd c) (lit "two")
  then Raise (exn_of OtherException (lit "rate limit"))
  else Return (lit "ok").
Definition failing_world : World :=
  with_llm (one_page three_chunks) failing_llm.

(** The double of [z] units of [2^t] steps; a normal double has
    [2^52 <= z < 2^53]. *)
Definition dbl (z t : Z) : Q := (z * 2 ^ t) # steps.

(** For a start [n / d >= 0]: its whole seconds, the whole minutes in them,
    and the exact remainder of the start modulo 60. *)
Definition whole_seconds (n : Z) (d : positive) : Z := (n / Z.pos d)%Z.
Definition whole_minutes (n : Z) (d : positive) : Z :=
  (whole_seconds n d / 60)%Z.
Definition exact_remainder (n : Z) (d : positive) : Q :=
  (n # d) - inject_Z 60 * inject_Z (whole_minutes n d).

(** Snippets at the double nearest to 1e23 seconds and at [-2^-70]
    seconds. *)
Definition far : Part :=
  {| start := inject_Z 99999999999999991611392; text := lit "far" |}.
Definition early : Part :=
  {| start := (-1) # 1180591620717411303424; text := lit "early" |}.

(** A snippet at 1803 s, and a video in English that ends there. *)
Definition late : Part := {| start := inject_Z 1803; text := lit "late" |}.
Definition english_1803 : World :=
  with_transcripts base_world
    (fun _ => Return [ {| language_code := lit "en";
                          fetch := Return [hola; late] |} ]).

(** A video whose first transcript is Spanish and whose English one cannot
    be fetched. *)
Definition spanish_then_broken_english : World :=
  with_transcripts base_world
    (fun _ => Return [ {| language_code := lit "es";
                          fetch := Return [hola] |};
                       {| language_code := lit "en";
                          fetch := Raise (exn_of OtherException
                                            (lit "blocked")) |} ]).

End MoreExamples.
Import MoreExamples.

(* ------------------------------------------------------------------ *)
(** ** Facts about strings *)

Module PyStrFacts.

Lemma marker_eq : marker = [10; 45; 45; 45; 10]%N.
Proof. reflexivity. Qed.

Lemma startswith_cons (a b : char) (p s : str) :
  startswith (a :: p) (b :: s) = N.eqb a b && startswith p s.
Proof. reflexivity. Qed.

Lemma join_cons (sep x : str) (l : list str) :
  l <> [] -> join sep (x :: l) = x ++ sep ++ join sep l.
Proof. destruct l; [congruence | reflexivity]. Qed.

Lemma startswith_false_of_contains (p s : str) :
  contains p s = false -> startswith p s = false.
Proof.
  destruct s; simpl; intros H; apply orb_false_iff in H; tauto.
Qed.

Lemma contains_suffix (p a b : str) :
  contains p (a ++ b) = false -> contains p b = false.
Proof.
  induction a as [|c a IH]; simpl; [tauto|].
  intros H. apply orb_false_iff in H. tauto.
Qed.

Lemma occ_free_tail (sep : str) (c : char) (a t : str) :
  occ_free sep (c :: a) t -> occ_free sep a t.
Proof.
  intros H a1 a2 E N. apply (H (c :: a1) a2); [simpl; congruence | exact N].
Qed.

Lemma occ_free_head (sep : str) (c : char) (a t : str) :
  occ_free sep (c :: a) t -> startswith sep (c :: a ++ t) = false.
Proof.
  intros H. apply (H [] (c :: a)); [reflexivity | discriminate].
Qed.

Lemma contains_app_free (sep a b : str) :
  occ_free sep a b -> contains sep b = false -> contains sep (a ++ b) = false.
Proof.
  induction a as [|c a IH]; intros F Hb; [exact Hb|].
  change (contains sep ((c :: a) ++ b))
    with (startswith sep (c :: a ++ b) || contains sep (a ++ b)).
  rewrite (occ_free_head _ _ _ _ F), IH; eauto using occ_free_tail.
Qed.

Lemma split_from_free (sep a t : str) :
  occ_free sep a t ->
  forall cur, split_from sep 0 cur (a ++ t) = split_from sep 0 (cur ++ a) t.
Proof.
  induction a as [|c a IH]; intros F cur.
  - now rewrite app_nil_r.
  - change (split_from sep 0 cur ((c :: a) ++ t))
      with (if startswith sep (c :: a ++ t)
            then cur :: split_from sep (length sep - 1) [] (a ++ t)
            else split_from sep 0 (cur ++ [c]) (a ++ t)).
    rewrite (occ_free_head _ _ _ _ F), IH by eauto using occ_free_tail.
    now rewrite <- app_assoc.
Qed.

Lemma split_from_marker (cur s : str) :
  split_from marker 0 cur (marker ++ s) = cur :: split_from marker 0 [] s.
Proof. rewrite marker_eq. destruct s; reflexivity. Qed.

Lemma startswith_app_self (p s : str) : startswith p (p ++ s) = true.
Proof.
  induction p as [|c p IH]; [reflexivity|]. simpl app.
  rewrite startswith_cons, N.eqb_refl. exact IH.
Qed.

Lemma startswith_split (p : str) :
  forall s, startswith p s = true -> s = p ++ skipn (length p) s.
Proof.
  induction p as [|a p IH]; intros s H; [reflexivity|].
  destruct s as [|b s]; [discriminate|].
  rewrite startswith_cons in H. apply andb_true_iff in H.
  destruct H as [Hab Hp]. apply N.eqb_eq in Hab. subst b.
  simpl. f_equal. now apply IH.
Qed.

Lemma split_from_skip (sep p : str) :
  forall cur s, split_from sep (length p) cur (p ++ s) = split_from sep 0 cur s.
Proof. induction p as [|c p IH]; intros cur s; [reflexivity | apply IH]. Qed.

Lemma split_from_sep (sep cur s : str) :
  sep <> [] ->
  split_from sep 0 cur (sep ++ s) = cur :: split_from sep 0 [] s.
Proof.
  destruct sep as [|c sep]; [congruence | intros _].
  change (split_from (c :: sep) 0 cur ((c :: sep) ++ s))
    with (if startswith (c :: sep) ((c :: sep) ++ s)
          then cur :: split_from (c :: sep) (length (c :: sep) - 1) []
                        (sep ++ s)
          else split_from (c :: sep) 0 (cur ++ [c]) (sep ++ s)).
  rewrite startswith_app_self. f_equal.
  replace (length (c :: sep) - 1) with (length sep) by (simpl; lia).
  apply split_from_skip.
Qed.

Lemma split_from_nonempty (sep : str) (s : str) :
  forall skip cur, split_from sep skip cur s <> [].
Proof.
  induction s as [|c s IH]; intros skip cur; [discriminate|].
  destruct skip as [|k]; [|apply IH].
  change (split_from sep 0 cur (c :: s))
    with (if startswith sep (c :: s)
          then cur :: split_from sep (length sep - 1) [] s
          else split_from sep 0 (cur ++ [c]) s).
  destruct (startswith sep (c :: s)); [discriminate | apply IH].
Qed.

(** [sep.join(s.split(sep)) == s] *)
Lemma join_split_from (sep : str) :
  sep <> [] ->
  forall n s, length s <= n ->
    forall cur, join sep (split_from sep 0 cur s) = cur ++ s.
Proof.
  intros Hsep. induction n as [|n IH]; intros s Hn cur.
  - destruct s; [simpl; now rewrite app_nil_r | simpl in Hn; lia].
  - destruct s as [|c s]; [simpl; now rewrite app_nil_r|].
    destruct (startswith sep (c :: s)) eqn:E.
    + pose proof (startswith_split _ _ E) as D.
      assert (L : length (skipn (length sep) (c :: s)) <= n).
      { apply (f_equal (@length char)) in D. rewrite length_app in D.
        destruct sep; [congruence|]. simpl in *. lia. }
      rewrite D at 1. rewrite split_from_sep by exact Hsep.
      rewrite join_cons by apply split_from_nonempty.
      rewrite (IH _ L []). simpl app at 2. now rewrite <- D.
    + change (split_from sep 0 cur (c :: s))
        with (if startswith sep (c :: s)
              then cur :: split_from sep (length sep - 1) [] s
              else split_from sep 0 (cur ++ [c]) s).
      rewrite E, IH by (simpl in Hn; lia). now rewrite <- app_assoc.
Qed.

Lemma join_split (sep s : str) : sep <> [] -> join sep (split sep s) = s.
Proof. intros H. apply (join_split_from sep H (length s) s (le_n _) []). Qed.

Lemma suffix_ends_nl (a1 a2 : str) :
  ends_nl (a1 ++ a2) -> a2 <> [] -> exists a2', a2 = a2' ++ nl.
Proof.
  intros [E | [a' E]] N.
  - apply app_eq_nil in E. tauto.
  - destruct (exists_last N) as [a2' [x E2]]. subst a2.
    rewrite app_assoc in E. apply app_inj_tail in E.
    exists a2'. unfold nl. now destruct E as [_ ->].
Qed.

Ltac eqb_consts :=
  repeat match goal with
    | |- context [N.eqb ?a ?b] =>
        let v := eval vm_compute in (N.eqb a b) in
        match v with
        | true => change (N.eqb a b) with true
        | false => change (N.eqb a b) with false
        end
    end;
  cbn [andb orb].

Lemma seam_no_marker (a2' t : str) :
  startswith marker (a2' ++ nl) = false ->
  starts_not_dash t ->
  startswith marker ((a2' ++ nl) ++ t) = false.
Proof.
  rewrite marker_eq. unfold nl. intros H T.
  destruct a2' as [|x1 [|x2 [|x3 [|x4 r]]]]; cbn [app] in *.
  - destruct T as [-> | [c [t' [-> Hc]]]]; [reflexivity|].
    rewrite !startswith_cons. apply N.eqb_neq in Hc.
    rewrite N.eqb_sym in Hc. rewrite Hc. now eqb_consts.
  - rewrite !startswith_cons. eqb_consts. now rewrite andb_false_r.
  - rewrite !startswith_cons. eqb_consts. now rewrite !andb_false_r.
  - rewrite !startswith_cons. eqb_consts. now rewrite !andb_false_r.
  - destruct r; cbn [app] in *; rewrite !startswith_cons in *; exact H.
Qed.

Lemma occ_free_intro (a t : str) :
  contains marker a = false -> ends_nl a -> starts_not_dash t ->
  occ_free marker a t.
Proof.
  intros C E T a1 a2 -> N.
  destruct (suffix_ends_nl _ _ E N) as [a2' ->].
  apply seam_no_marker; [|exact T].
  apply startswith_false_of_contains. eauto using contains_suffix.
Qed.

Lemma starts_not_dash_nil : starts_not_dash [].
Proof. now left. Qed.

Lemma starts_not_dash_marker (s : str) : starts_not_dash (marker ++ s).
Proof. right. exists 10%N, ([45; 45; 45; 10]%N ++ s). now split. Qed.

(** *** White space *)

Lemma lstrip_snoc (l : str) (x : char) :
  isspace x = false -> lstrip (l ++ [x]) <> [].
Proof.
  intros Hx. induction l as [|c l IH]; simpl.
  - now rewrite Hx.
  - destruct (isspace c); [exact IH | discriminate].
Qed.

Lemma strip_nonblank_head (x : char) (s : str) :
  isspace x = false -> truthy (strip (x :: s)) = true.
Proof.
  intros Hx. unfold strip. simpl lstrip at 2. rewrite Hx. simpl rev at 2.
  pose proof (lstrip_snoc (rev s) x Hx) as N.
  destruct (lstrip (rev s ++ [x])) as [|c l] eqn:E; [congruence|].
  simpl. destruct (rev l ++ [c]) eqn:E'; [|reflexivity].
  now apply app_eq_nil in E'.
Qed.

Lemma concat_filter_nonempty (f : str -> bool) (l : list str) :
  (forall c, In c l -> f c = false -> c = []) ->
  concat (filter f l) = concat l.
Proof.
  induction l as [|c l IH]; intros H; [reflexivity|]. simpl.
  destruct (f c) eqn:E; simpl.
  - rewrite IH; auto. intros; apply H; simpl; auto.
  - rewrite (H c); simpl; auto. apply IH. intros; apply H; simpl; auto.
Qed.

(** [sep.join(l)] for a non-empty [l], without recursion on the joined
    text: each item but the last followed by the separator, then the last
    item. *)
Lemma join_closed_form (sep : str) (l : list str) :
  l <> [] ->
  join sep l = concat (map (fun x => x ++ sep) (removelast l)) ++ last l [].
Proof.
  induction l as [|x [|y l'] IH]; intros Hne.
  - contradiction.
  - reflexivity.
  - change (join sep (x :: y :: l')) with (x ++ sep ++ join sep (y :: l')).
    rewrite IH by discriminate.
    change (removelast (x :: y :: l')) with (x :: removelast (y :: l')).
    change (last (x :: y :: l') []) with (last (y :: l') []).
    cbn [map concat]. rewrite <- !app_assoc. reflexivity.
Qed.

End PyStrFacts.
Import PyStrFacts.

(* ------------------------------------------------------------------ *)
(** ** The chunker *)

Module ChunkerFacts.

Abbreviation twt := text_with_timestamp.

Lemma chunks_from_cons (B : nat) (cur : str) (size : nat) (p : Part)
    (rest : list Part) :
  chunks_from B cur size (p :: rest)
  = if B <? size + length (twt p)
    then cur :: chunks_from B (twt p) (length (twt p)) rest
    else chunks_from B (cur ++ twt p) (size + length (twt p)) rest.
Proof. reflexivity. Qed.

Lemma chunk_loop_cons (B : nat) (formatted cur : str) (size : nat) (p : Part)
    (rest : list Part) :
  chunk_loop B formatted cur size (p :: rest)
  = if B <? size + length (twt p)
    then chunk_loop B (formatted ++ (cur ++ marker)) (twt p)
           (length (twt p)) rest
    else chunk_loop B formatted (cur ++ twt p) (size + length (twt p)) rest.
Proof. reflexivity. Qed.

Lemma chunks_from_nonempty (B : nat) (parts : list Part) :
  forall cur size, chunks_from B cur size parts <> [].
Proof.
  induction parts as [|p rest IH]; intros cur size.
  - discriminate.
  - rewrite chunks_from_cons.
    destruct (B <? size + length (twt p)); [discriminate | apply IH].
Qed.

(** The string the loop builds is its chunks glued with the marker. *)
Lemma chunk_loop_join (B : nat) (parts : list Part) :
  forall formatted cur size,
    chunk_loop B formatted cur size parts
    = formatted ++ join marker (chunks_from B cur size parts).
Proof.
  induction parts as [|p rest IH]; intros formatted cur size.
  - reflexivity.
  - rewrite chunk_loop_cons, chunks_from_cons.
    destruct (B <? size + length (twt p)).
    + rewrite IH, join_cons by apply chunks_from_nonempty.
      now rewrite <- !app_assoc.
    + apply IH.
Qed.

Lemma format_transcript_join (B : nat) (parts : list Part) :
  format_transcript B parts = join marker (chunks B parts).
Proof. apply (chunk_loop_join B parts [] [] 0). Qed.

Lemma concat_chunks_from (B : nat) (parts : list Part) :
  forall cur size,
    concat (chunks_from B cur size parts) = cur ++ source_text parts.
Proof.
  unfold source_text.
  induction parts as [|p rest IH]; intros cur size.
  - simpl. now rewrite app_nil_r.
  - rewrite chunks_from_cons. cbn [map concat].
    destruct (B <? size + length (twt p)); cbn [concat]; rewrite IH.
    + reflexivity.
    + now rewrite <- app_assoc.
Qed.

(** Every chunk is made of whole lines: the loop cuts the list of
    snippets into consecutive groups and each chunk is the text of one
    group. *)
Lemma chunks_from_groups (B : nat) (parts : list Part) :
  forall group size,
    exists groups,
      concat groups = group ++ parts
      /\ chunks_from B (source_text group) size parts
         = map source_text groups.
Proof.
  induction parts as [|p rest IH]; intros group size.
  - exists [group]. simpl. now rewrite !app_nil_r.
  - rewrite chunks_from_cons.
    destruct (B <? size + length (twt p)).
    + destruct (IH [p] (length (twt p))) as [groups [C E]].
      exists (group :: groups). simpl. rewrite C. split; [reflexivity|].
      f_equal. rewrite <- E. unfold source_text. simpl.
      now rewrite app_nil_r.
    + destruct (IH (group ++ [p]) (size + length (twt p)))
        as [groups [C E]].
      exists groups. rewrite C, <- app_assoc. split; [reflexivity|].
      rewrite <- E. unfold source_text.
      rewrite map_app, concat_app. simpl. now rewrite app_nil_r.
Qed.

(** *** Shape of the chunks *)

Lemma starts_bracket_not_dash (c : str) :
  starts_bracket c -> starts_not_dash c.
Proof.
  intros [-> | [c' ->]]; [now left | right].
  exists 91%N, c'. now split.
Qed.

Lemma wf_nil : wf_chunk [].
Proof. split; [reflexivity | now left | now left]. Qed.

Lemma wf_app (a b : str) : wf_chunk a -> wf_chunk b -> wf_chunk (a ++ b).
Proof.
  intros [Ca Ea Sa] [Cb Eb Sb]. split.
  - apply contains_app_free; [|exact Cb].
    apply occ_free_intro; auto using starts_bracket_not_dash.
  - destruct Eb as [-> | [b' ->]].
    + now rewrite app_nil_r.
    + right. exists (a ++ b'). now rewrite app_assoc.
  - destruct Sa as [-> | [a' ->]]; [exact Sb | right].
    now exists (a' ++ b).
Qed.

Lemma twt_shape (p : Part) :
  exists body, twt p = 91%N :: body /\ exists front, twt p = front ++ nl.
Proof.
  unfold twt. change (lit "[") with [91%N]. cbn [app].
  eexists; split; [reflexivity|].
  rewrite !app_comm_cons, !app_assoc. eexists; reflexivity.
Qed.

Lemma wf_line (p : Part) :
  contains marker (twt p) = false -> wf_chunk (twt p).
Proof.
  intros C. destruct (twt_shape p) as [body [Hb [front Hf]]].
  split; [exact C | right; eauto | right; eauto].
Qed.

Lemma wf_chunks_from (B : nat) (parts : list Part) :
  Forall marker_free parts ->
  forall cur size, wf_chunk cur -> Forall wf_chunk (chunks_from B cur size parts).
Proof.
  induction 1 as [|p rest Hp _ IH]; intros cur size W.
  - now constructor.
  - rewrite chunks_from_cons. destruct (B <? size + length (twt p)).
    + constructor; [exact W | apply IH, wf_line, Hp].
    + apply IH, wf_app; [exact W | apply wf_line, Hp].
Qed.

(** Splitting at the marker undoes the gluing of well-shaped chunks. *)
Lemma split_join_wf (l : list str) :
  l <> [] -> Forall wf_chunk l -> split marker (join marker l) = l.
Proof.
  unfold split. induction l as [|x l IH]; intros N F; [congruence|].
  inversion F as [|? ? Wx Fl]; subst. destruct Wx as [Cx Ex _].
  destruct l as [|y l].
  - simpl join. rewrite <- (app_nil_r x) at 1.
    rewrite split_from_free; [reflexivity|].
    apply occ_free_intro; auto using starts_not_dash_nil.
  - rewrite join_cons by discriminate.
    rewrite split_from_free, split_from_marker.
    + simpl app. f_equal. apply IH; [discriminate | exact Fl].
    + apply occ_free_intro; auto using starts_not_dash_marker.
Qed.

Lemma split_format_transcript (B : nat) (parts : list Part) :
  Forall marker_free parts ->
  split_chunks (format_transcript B parts) = chunks B parts.
Proof.
  intros F. unfold split_chunks. rewrite format_transcript_join.
  apply split_join_wf; [apply chunks_from_nonempty|].
  apply wf_chunks_from; [exact F | apply wf_nil].
Qed.

Lemma wf_blank_empty (c : str) : wf_chunk c -> nonblank c = false -> c = [].
Proof.
  intros [_ _ [-> | [c' ->]]] H; [reflexivity|].
  unfold nonblank in H. now rewrite strip_nonblank_head in H.
Qed.

(** *** Bounds *)

Lemma chunks_from_bound (B : nat) (parts rest : list Part) :
  incl rest parts ->
  forall cur size,
    size = length cur -> within_budget B parts cur ->
    Forall (within_budget B parts) (chunks_from B cur size rest).
Proof.
  induction rest as [|p rest IH]; intros I cur size -> W.
  - now constructor.
  - rewrite chunks_from_cons.
    assert (Ip : In p parts) by (apply I; now left).
    assert (I' : incl rest parts) by (intros q Hq; apply I; now right).
    destruct (Nat.ltb_spec B (length cur + length (twt p))) as [L | L].
    + constructor; [exact W|]. apply IH; [exact I' | reflexivity |].
      destruct (Nat.le_gt_cases (length (twt p)) B); [now left | right].
      now exists p.
    + apply IH; [exact I' | now rewrite length_app |].
      left. now rewrite length_app.
Qed.

(** An oversized line is closed off before it and after it. *)
Lemma oversized_alone (B : nat) (p : Part) (after : list Part) :
  B < length (twt p) ->
  forall before cur size,
    exists l1 l2,
      chunks_from B cur size (before ++ p :: after) = l1 ++ twt p :: l2
      /\ concat l1 = cur ++ source_text before
      /\ concat l2 = source_text after.
Proof.
  intros Big. induction before as [|b before IH]; intros cur size.
  - simpl app. rewrite chunks_from_cons.
    replace (B <? size + length (twt p)) with true
      by (symmetry; apply Nat.ltb_lt; lia).
    exists [cur]. destruct after as [|q after].
    + exists []. simpl. now rewrite !app_nil_r.
    + rewrite chunks_from_cons.
      replace (B <? length (twt p) + length (twt q)) with true
        by (symmetry; apply Nat.ltb_lt; lia).
      eexists. split; [reflexivity|]. split.
      * simpl. now rewrite !app_nil_r.
      * apply concat_chunks_from.
  - simpl app. rewrite chunks_from_cons.
    destruct (B <? size + length (twt b)).
    + destruct (IH (twt b) (length (twt b))) as [l1 [l2 [E [C1 C2]]]].
      exists (cur :: l1), l2. rewrite E. split; [reflexivity|].
      split; [|exact C2]. simpl. rewrite C1. reflexivity.
    + destruct (IH (cur ++ twt b) (size + length (twt b)))
        as [l1 [l2 [E [C1 C2]]]].
      exists l1, l2. rewrite E. split; [reflexivity|].
      split; [|exact C2]. rewrite C1. unfold source_text. simpl.
      now rewrite <- app_assoc.
Qed.

End ChunkerFacts.
Import ChunkerFacts.


(* ------------------------------------------------------------------ *)
(** ** The summariser *)

Module SummaryFacts.

Section WithWorld.

Variable w : World.

Lemma with_calls_nil (s : session) : with_calls s [] = s.
Proof. destruct s. unfold with_calls. simpl. now rewrite app_nil_r. Qed.

Lemma with_calls_app (s : session) (a b : list call) :
  with_calls (with_calls s a) b = with_calls s (a ++ b).
Proof. unfold with_calls. simpl. now rewrite app_assoc. Qed.

Lemma chain_run_eq (template text : str) (s : session) :
  chain_run w template text s
  = (llm_complete w (llm_calls s) (template, text),
     with_calls s [(template, text)]).
Proof. reflexivity. Qed.

Lemma summarize_chunks_cons (prompt chunk : str) (rest all : list str) :
  summarize_chunks w prompt (chunk :: rest) all
  = if nonblank chunk
    then bind (chain_run w prompt chunk)
           (fun r => summarize_chunks w prompt rest (all ++ [r]))
    else summarize_chunks w prompt rest all.
Proof. reflexivity. Qed.

Lemma answers_app (prompt : str) (a b sa sb : list str) :
  forall log,
    answers w prompt log a sa ->
    answers w prompt (log ++ map (pair prompt) a) b sb ->
    answers w prompt log (a ++ b) (sa ++ sb).
Proof.
  intros log Ha. induction Ha as [log | log c cs r sums Hc Ha IH]; intros Hb.
  - simpl in Hb. now rewrite app_nil_r in Hb.
  - simpl. constructor; [exact Hc|]. apply IH.
    simpl in Hb. now rewrite <- app_assoc.
Qed.

Lemma answers_length (prompt : str) (log : list call) (a sa : list str) :
  answers w prompt log a sa -> length sa = length a.
Proof. induction 1; simpl; congruence. Qed.

(** When the inner loop finishes, it has asked the LLM about the non-blank
    chunks in order and appended the answers in that order. *)
Lemma summarize_chunks_ok (prompt : str) (chunks : list str) :
  forall acc s all s',
    summarize_chunks w prompt chunks acc s = (Return all, s') ->
    exists sums,
      all = acc ++ sums
      /\ answers w prompt (llm_calls s) (filter nonblank chunks) sums
      /\ s' = with_calls s (map (pair prompt) (filter nonblank chunks)).
Proof.
  induction chunks as [|chunk rest IH]; intros acc s all s' H.
  - inversion H; subst. exists []. rewrite app_nil_r, with_calls_nil.
    repeat split. constructor.
  - rewrite summarize_chunks_cons in H. cbn [filter].
    destruct (nonblank chunk).
    + unfold bind in H. rewrite chain_run_eq in H.
      destruct (llm_complete w (llm_calls s) (prompt, chunk)) as [r|e] eqn:E;
        [|discriminate].
      apply IH in H. destruct H as [sums [-> [A ->]]].
      exists (r :: sums). rewrite <- app_assoc. split; [reflexivity|].
      split; [now constructor | now rewrite with_calls_app].
    + now apply IH.
Qed.

Lemma summarize_docs_ok (prompt : str) (docs : list Document) :
  forall acc s all s',
    summarize_docs w prompt docs acc s = (Return all, s') ->
    exists sums,
      all = acc ++ sums
      /\ answers w prompt (llm_calls s) (segments docs) sums
      /\ s' = with_calls s (map (pair prompt) (segments docs)).
Proof.
  induction docs as [|doc rest IH]; intros acc s all s' H.
  - inversion H; subst. exists []. rewrite app_nil_r, with_calls_nil.
    repeat split. constructor.
  - simpl in H. unfold bind in H.
    destruct (summarize_chunks w prompt (split marker (page_content doc))
                acc s) as [[mid|e] s1] eqn:E; [|discriminate].
    apply summarize_chunks_ok in E. destruct E as [sums1 [-> [A1 ->]]].
    apply IH in H. destruct H as [sums2 [-> [A2 ->]]].
    exists (sums1 ++ sums2). rewrite <- app_assoc.
    split; [reflexivity|]. unfold segments. cbn [map concat].
    rewrite map_app, with_calls_app. split; [|reflexivity].
    apply answers_app; assumption.
Qed.

(** [generate_summary] never raises: its handler catches everything. *)
Lemma generate_summary_returns (docs : list Document) (prompt : str)
    (s : session) :
  exists r s', generate_summary w docs prompt s = (Return r, s').
Proof.
  unfold generate_summary, try_except, ret.
  destruct (generate_summary_try w docs prompt s) as [[r|e] s']; eauto.
Qed.

Lemma generate_summary_of_try (docs : list Document) (prompt : str)
    (s s' : session) (r : str) :
  generate_summary_try w docs prompt s = (Return r, s') ->
  generate_summary w docs prompt s = (Return r, s').
Proof. unfold generate_summary, try_except. now intros ->. Qed.

Lemma generate_summary_try_of_docs (docs : list Document) (prompt : str)
    (s s' : session) (all : list str) :
  summarize_docs w prompt docs [] s = (Return all, s') ->
  generate_summary_try w docs prompt s = combine w all s'.
Proof. unfold generate_summary_try, bind. now intros ->. Qed.

End WithWorld.

End SummaryFacts.
Import SummaryFacts.

(* ------------------------------------------------------------------ *)
(** ** Messages *)

Module MessageFacts.

Lemma lacks_app (c : char) (a b : str) :
  lacks c (a ++ b) = lacks c a && lacks c b.
Proof. apply forallb_app. Qed.

Lemma lacks_startswith (c : char) (p s : str) :
  lacks c s = true -> startswith (c :: p) s = false.
Proof.
  destruct s as [|x s]; [reflexivity|]. simpl lacks.
  intros H. apply andb_true_iff in H. destruct H as [H _].
  rewrite startswith_cons. apply negb_true_iff in H. now rewrite H.
Qed.

Lemma lacks_contains (c : char) (p s : str) :
  lacks c s = true -> contains (c :: p) s = false.
Proof.
  induction s as [|x s IH]; intros H; [reflexivity|].
  change (contains (c :: p) (x :: s))
    with (startswith (c :: p) (x :: s) || contains (c :: p) s).
  rewrite (lacks_startswith _ _ _ H).
  simpl in H. apply andb_true_iff in H. now rewrite IH.
Qed.

Lemma lacks_split (c : char) (sep s : str) :
  lacks c s = true -> forall cur, split_from (c :: sep) 0 cur s = [cur ++ s].
Proof.
  induction s as [|x s IH]; intros H cur.
  - now rewrite app_nil_r.
  - change (split_from (c :: sep) 0 cur (x :: s))
      with (if startswith (c :: sep) (x :: s)
            then cur :: split_from (c :: sep) (length (c :: sep) - 1) [] s
            else split_from (c :: sep) 0 (cur ++ [x]) s).
    rewrite (lacks_startswith _ _ _ H).
    simpl in H. apply andb_true_iff in H.
    rewrite IH by tauto. now rewrite <- app_assoc.
Qed.

Lemma digits_lack (c : char) (s : str) :
  is_digit c = false -> forallb is_digit s = true -> lacks c s = true.
Proof.
  intros Hc. induction s as [|x s IH]; [reflexivity|]. simpl.
  intros H. apply andb_true_iff in H. destruct H as [Hx Hs].
  rewrite IH by exact Hs. rewrite andb_true_r. apply negb_true_iff.
  apply N.eqb_neq. intros ->. congruence.
Qed.

Lemma uint_digits (u : Decimal.uint) :
  forallb is_digit (lit (NilEmpty.string_of_uint u)) = true.
Proof. induction u; simpl; auto. Qed.

Lemma dec_digits (n : N) : forallb is_digit (dec n) = true.
Proof.
  unfold dec, NilZero.string_of_uint.
  destruct (N.to_uint n) eqn:E; try reflexivity;
    rewrite <- E; apply uint_digits.
Qed.

Lemma fmt_1f_lacks (c : char) (q : Q) :
  is_digit c = false -> c <> 46%N -> lacks c (fmt_1f q) = true.
Proof.
  intros Hd Hp. unfold fmt_1f. rewrite !lacks_app.
  rewrite (digits_lack c (dec _) Hd (dec_digits _)).
  rewrite (digits_lack c (dec _) Hd (dec_digits _)).
  simpl. apply N.eqb_neq in Hp. now rewrite Hp.
Qed.

Lemma duration_message_lacks (c : char) (q : Q) :
  In c [10; 69; 78]%N -> lacks c (duration_message q) = true.
Proof.
  intros H. unfold duration_message. rewrite !lacks_app.
  rewrite fmt_1f_lacks;
    [| simpl in H; intuition (subst; reflexivity)
     | simpl in H; intuition (subst; discriminate)].
  simpl in H. intuition (subst; reflexivity).
Qed.

Lemma unflagged_lacks (c : char) (message : str) :
  unflagged_error message -> In c [10; 69; 78]%N -> lacks c message = true.
Proof.
  intros [| |d] H; [| |now apply duration_message_lacks];
    simpl in H; intuition (subst; reflexivity).
Qed.

(** The failure test of line 295 lets these messages through. *)
Lemma unflagged_not_failed (message : str) :
  unflagged_error message -> transcript_failed message = false.
Proof.
  intros U. unfold transcript_failed.
  change (lit "Error") with (69%N :: lit "rror").
  change (lit "No transcript") with (78%N :: lit "o transcript").
  rewrite !lacks_contains; auto; apply unflagged_lacks; simpl; auto.
Qed.

(** They have no marker, so they make one single chunk. *)
Lemma unflagged_one_chunk (message : str) :
  unflagged_error message -> split marker message = [message].
Proof.
  intros U. unfold split. rewrite marker_eq.
  apply (lacks_split 10%N _ message); apply unflagged_lacks; simpl; auto.
Qed.

Lemma unflagged_nonblank (message : str) :
  unflagged_error message -> nonblank message = true.
Proof. intros [| |d]; unfold nonblank; now apply strip_nonblank_head. Qed.

End MessageFacts.
Import MessageFacts.

(* ------------------------------------------------------------------ *)
(** ** The button handler *)

Module HandlerFacts.

Section WithWorld.

Variable w : World.

Lemma with_ui_app (s : session) (a b : list ui_event) :
  with_ui (with_ui s a) b = with_ui s (a ++ b).
Proof. unfold with_ui. simpl. now rewrite app_assoc. Qed.

Lemma emit_eq (e : ui_event) (s : session) :
  emit e s = (Return tt, with_ui s [e]).
Proof. reflexivity. Qed.

Lemma make_pdf_session (generic_url out : str) (s : session) :
  make_pdf w generic_url out s
  = (fst (make_pdf w generic_url out session0), s).
Proof.
  unfold make_pdf, bind, lift, ret, raise.
  destruct (fpdf_output w out _ _) as [t|e]; [|reflexivity].
  destruct (encode_latin1 t); reflexivity.
Qed.

Lemma export_summary_eq (generic_url out : str) (s : session) :
  export_summary w generic_url out s
  = let s' :=
      with_ui s
        [st_markdown header; st_markdown out;
         st_download_button (inbox_tray ++ lit " Download as Text")
           (TextData out) (file_name w (lit ".txt")) (lit "text/plain")] in
    match fst (make_pdf w generic_url out session0) with
    | Return pdf_bytes =>
        (Return tt,
         with_ui s'
           [st_download_button (page_facing_up ++ lit " Download as PDF")
              (BytesData pdf_bytes) (file_name w (lit ".pdf"))
              (lit "application/pdf")])
    | Raise e => (Raise e, s')
    end.
Proof.
  unfold export_summary, bind. rewrite !emit_eq, make_pdf_session.
  rewrite !with_ui_app. cbn [app].
  destruct (fst (make_pdf w generic_url out session0)); reflexivity.
Qed.

Lemma summarize_button_valid (generic_url : str) (s : session) :
  truthy (strip generic_url) = true ->
  validators_url w generic_url = true ->
  summarize_button w generic_url s
  = try_finally
      (try_except (summarize_try w generic_url)
         (fun e => emit (st_exception
                           (cross_mark ++ lit " An error occurred: "
                              ++ exn_str e))))
      (set_processing false) s.
Proof. unfold summarize_button. now intros -> ->. Qed.

(** The run from the button press to its end, once the documents are
    loaded and [generate_summary] has returned. *)
Lemma button_after_summary (generic_url : str) (s : session)
    (docs : list Document) (s1 : session) (out : str) (s2 : session) :
  truthy (strip generic_url) = true ->
  validators_url w generic_url = true ->
  load_docs w generic_url (started s) = (Return docs, s1) ->
  docs <> [] ->
  generate_summary w docs prompt_template s1 = (Return out, s2) ->
  summarize_button w generic_url s
  = (Return tt, finished (with_ui s2 (shown w generic_url out))).
Proof.
  intros Hs Hv Hl Hd Hg. rewrite summarize_button_valid by assumption.
  unfold try_finally, try_except, summarize_try, bind at 1.
  change (set_processing true s) with (Return tt, started s). cbv iota beta.
  unfold bind. rewrite Hl.
  destruct docs as [|doc docs]; [congruence|].
  unfold present, bind. rewrite Hg. unfold shown.
  destruct (contains (lit "Error") out).
  - rewrite emit_eq. reflexivity.
  - rewrite export_summary_eq. unfold pdf_events. cbv zeta.
    destruct (fst (make_pdf w generic_url out session0)).
    + rewrite with_ui_app. reflexivity.
    + rewrite emit_eq, with_ui_app. reflexivity.
Qed.

Lemma load_docs_youtube (generic_url : str) (s : session) :
  is_youtube generic_url = true ->
  transcript_failed (get_youtube_transcript w generic_url) = false ->
  load_docs w generic_url s
  = (Return [ {| page_content := get_youtube_transcript w generic_url |} ],
     s).
Proof. unfold load_docs. now intros -> ->. Qed.

(** A document of one non-blank chunk costs exactly one LLM call. *)
Lemma generate_summary_one_chunk (content prompt : str) (s : session) :
  split marker content = [content] ->
  nonblank content = true ->
  exists out,
    generate_summary w [ {| page_content := content |} ] prompt s
    = (Return out, with_calls s [(prompt, content)]).
Proof.
  intros Hsp Hnb.
  unfold generate_summary, try_except, generate_summary_try, bind at 1.
  cbn [summarize_docs page_content]. unfold bind at 1. rewrite Hsp.
  rewrite summarize_chunks_cons, Hnb. unfold bind at 1.
  rewrite chain_run_eq.
  destruct (llm_complete w (llm_calls s) (prompt, content)) as [r|e].
  - exists r. reflexivity.
  - eexists. reflexivity.
Qed.

End WithWorld.

End HandlerFacts.
Import HandlerFacts.

(* ------------------------------------------------------------------ *)
(** ** Facts about float arithmetic *)

Module FloatFacts.

Local Open Scope Z_scope.

Lemma round_ne_ge (num : Z) (den : positive) (z : Z) :
  z * Z.pos den <= num -> z <= round_ne num den.
Proof.
  intros H. unfold round_ne.
  assert (F : z <= num / Z.pos den)
    by (apply Z.div_le_lower_bound; lia).
  destruct (2 * (num mod Z.pos den) ?= Z.pos den);
    [destruct (Z.even (num / Z.pos den))| |]; lia.
Qed.

Lemma round_ne_le (num : Z) (den : positive) (z : Z) :
  num <= z * Z.pos den -> round_ne num den <= z.
Proof.
  intros H. unfold round_ne.
  pose proof (Z.div_mod num (Z.pos den) ltac:(lia)) as E.
  pose proof (Z.mod_pos_bound num (Z.pos den) ltac:(lia)) as B.
  set (f := num / Z.pos den) in *. set (r := num mod Z.pos den) in *.
  destruct (Z.compare_spec (2 * r) (Z.pos den)) as [C | C | C];
    [destruct (Z.even f)| |]; nia.
Qed.

Lemma steps_eq : Z.pos steps = 2 ^ 1074.
Proof. unfold steps. rewrite Z2Pos.id; [reflexivity | now apply Z.pow_pos_nonneg]. Qed.

Lemma pos_pow (w : Z) : 0 <= w -> Z.pos (Z.to_pos (2 ^ w)) = 2 ^ w.
Proof. intros H. apply Z2Pos.id. now apply Z.pow_pos_nonneg. Qed.

Lemma scale_eq : 2 ^ 1126 = 2 ^ 1074 * 2 ^ 52.
Proof. now rewrite <- Z.pow_add_r. Qed.

Lemma ulp_w_nonneg (a : Z) (d : positive) : 0 <= ulp_w a d.
Proof. unfold ulp_w. lia. Qed.

Lemma ulp_w_le (a : Z) (d : positive) (t : Z) :
  0 <= a -> 0 <= t ->
  a * 2 ^ 1126 < 2 ^ (t + 105) * Z.pos d ->
  ulp_w a d <= t.
Proof.
  intros Ha Ht H. unfold ulp_w. apply Z.max_lub; [|exact Ht].
  set (N := a * 2 ^ 1126 / Z.pos d).
  assert (Hn : 0 <= N)
    by (apply Z.div_pos; [apply Z.mul_nonneg_nonneg; lia | lia]).
  assert (Hu : N < 2 ^ (t + 105))
    by (apply Z.div_lt_upper_bound; lia).
  destruct (Z.eq_dec N 0) as [-> | Hz]; [simpl; lia|].
  assert (Z.log2 N < t + 105) by (apply Z.log2_lt_pow2; lia).
  lia.
Qed.

Lemma ulp_w_ge (a : Z) (d : positive) (c : Z) :
  0 <= c ->
  2 ^ (c + 104) * Z.pos d <= a * 2 ^ 1126 ->
  c <= ulp_w a d
  /\ 2 ^ (ulp_w a d + 104) * Z.pos d <= a * 2 ^ 1126.
Proof.
  intros Hc H. unfold ulp_w.
  set (N := a * 2 ^ 1126 / Z.pos d).
  assert (Hl : 2 ^ (c + 104) <= N)
    by (apply Z.div_le_lower_bound; lia).
  assert (Hp : 0 < 2 ^ (c + 104)) by (apply Z.pow_pos_nonneg; lia).
  assert (Hg : c + 104 <= Z.log2 N).
  { rewrite <- (Z.log2_pow2 (c + 104)) by lia. now apply Z.log2_le_mono. }
  rewrite Z.max_l by lia. split; [lia|].
  replace (Z.log2 N - 104 + 104) with (Z.log2 N) by lia.
  pose proof (Z.log2_spec N ltac:(lia)) as [S _].
  pose proof (Z.mul_div_le (a * 2 ^ 1126) (Z.pos d) ltac:(lia)).
  fold N in H0. nia.
Qed.

Lemma fl_unfold (n : Z) (d : positive) :
  fl (n # d)
  = (Z.sgn n
     * round_ne (Z.abs n * 2 ^ 1074)
         (d * Z.to_pos (2 ^ ulp_w (Z.abs n) d))
     * 2 ^ ulp_w (Z.abs n) d) # steps.
Proof. reflexivity. Qed.

(** Rounding does not step over a double: it stays below one that is
    above ... *)
Lemma fl_le_dbl (n : Z) (d : positive) (z t : Z) :
  0 < n -> 0 <= t -> 0 <= z < 2 ^ 53 ->
  (n # d <= dbl z t)%Q -> (fl (n # d) <= dbl z t)%Q.
Proof.
  intros Hn Ht Hz H. rewrite fl_unfold.
  unfold dbl, Qle in *. cbn [Qnum Qden] in *. rewrite steps_eq in *.
  rewrite Z.sgn_pos, Z.abs_eq by lia.
  set (w := ulp_w n d).
  assert (HP : 0 < 2 ^ 1074) by now apply Z.pow_pos_nonneg.
  assert (HT : 0 < 2 ^ t) by now apply Z.pow_pos_nonneg.
  assert (Hw0 : 0 <= w) by apply ulp_w_nonneg.
  assert (Hw : w <= t).
  { apply ulp_w_le; [lia | lia |].
    rewrite scale_eq.
    replace (t + 105) with (t + (53 + 52)) by lia.
    rewrite !Z.pow_add_r by lia.
    set (P := 2 ^ 1074) in *. set (A := 2 ^ t) in *.
    assert (0 < 2 ^ 52) by now apply Z.pow_pos_nonneg.
    set (B := 2 ^ 52) in *. set (C := 2 ^ 53) in *. nia. }
  assert (HW : 0 < 2 ^ w) by now apply Z.pow_pos_nonneg.
  assert (HV : 0 < 2 ^ (t - w)) by (apply Z.pow_pos_nonneg; lia).
  assert (E : 2 ^ t = 2 ^ (t - w) * 2 ^ w)
    by (rewrite <- Z.pow_add_r by lia; f_equal; lia).
  assert (K : round_ne (n * 2 ^ 1074) (d * Z.to_pos (2 ^ w))
              <= z * 2 ^ (t - w)).
  { apply round_ne_le. rewrite Pos2Z.inj_mul, pos_pow by lia.
    rewrite E in H. nia. }
  rewrite E. set (k := round_ne _ _) in *.
  set (P := 2 ^ 1074) in *. set (W := 2 ^ w) in *.
  set (V := 2 ^ (t - w)) in *. nia.
Qed.

(** ... and above one that is below. *)
Lemma fl_ge_dbl (n : Z) (d : positive) (z t : Z) :
  0 < n -> 0 <= t -> 2 ^ 52 <= z < 2 ^ 53 ->
  (dbl z t <= n # d)%Q -> (dbl z t <= fl (n # d))%Q.
Proof.
  intros Hn Ht Hz H. rewrite fl_unfold.
  unfold dbl, Qle in *. cbn [Qnum Qden] in *. rewrite steps_eq in *.
  rewrite Z.sgn_pos, Z.abs_eq by lia.
  assert (HP : 0 < 2 ^ 1074) by now apply Z.pow_pos_nonneg.
  assert (HT : 0 < 2 ^ t) by now apply Z.pow_pos_nonneg.
  assert (HB : 0 < 2 ^ 52) by now apply Z.pow_pos_nonneg.
  destruct (ulp_w_ge n d t Ht) as [Hw S].
  { rewrite scale_eq. replace (t + 104) with (t + (52 + 52)) by lia.
    rewrite !Z.pow_add_r by lia.
    set (P := 2 ^ 1074) in *. set (A := 2 ^ t) in *.
    set (B := 2 ^ 52) in *. nia. }
  set (w := ulp_w n d) in *.
  assert (HW : 0 < 2 ^ w) by (apply Z.pow_pos_nonneg; lia).
  (* the mantissa is at least 2^52 *)
  assert (K52 : 2 ^ 52 <= round_ne (n * 2 ^ 1074) (d * Z.to_pos (2 ^ w))).
  { apply round_ne_ge. rewrite Pos2Z.inj_mul, pos_pow by lia.
    rewrite scale_eq in S.
    replace (w + 104) with (w + (52 + 52)) in S by lia.
    rewrite !Z.pow_add_r in S by lia.
    set (P := 2 ^ 1074) in *. set (W := 2 ^ w) in *.
    set (B := 2 ^ 52) in *. nia. }
  destruct (Z.eq_dec w t) as [Ew | Nw].
  - assert (K : z <= round_ne (n * 2 ^ 1074) (d * Z.to_pos (2 ^ w))).
    { apply round_ne_ge. rewrite Pos2Z.inj_mul, pos_pow by lia.
      rewrite Ew. lia. }
    rewrite Ew in *. set (k := round_ne _ _) in *.
    set (P := 2 ^ 1074) in *. set (A := 2 ^ t) in *. nia.
  - assert (E : 2 ^ w = 2 ^ (w - t - 1) * 2 * 2 ^ t).
    { replace (2 ^ (w - t - 1) * 2) with (2 ^ (w - t - 1) * 2 ^ 1)
        by reflexivity.
      rewrite <- !Z.pow_add_r by lia. f_equal. lia. }
    assert (HU : 0 < 2 ^ (w - t - 1)) by (apply Z.pow_pos_nonneg; lia).
    set (k := round_ne _ _) in *. rewrite E.
    set (P := 2 ^ 1074) in *. set (A := 2 ^ t) in *.
    set (U := 2 ^ (w - t - 1)) in *.
    assert (2 ^ 53 = 2 * 2 ^ 52) by reflexivity.
    set (B := 2 ^ 52) in *. set (C := 2 ^ 53) in *.
    apply Z.mul_le_mono_nonneg_r; [lia|].
    assert (S1 : z * A <= 2 * k * A) by nia.
    assert (S2 : k * A <= k * A * U) by nia.
    lia.
Qed.

Lemma fl_exact (q : Q) (z t : Z) :
  0 <= t -> 2 ^ 52 <= z < 2 ^ 53 ->
  (q == dbl z t)%Q -> (fl q == dbl z t)%Q.
Proof.
  intros Ht Hz E. destruct q as [n d].
  assert (Hn : 0 < n).
  { unfold dbl, Qeq in E. cbn [Qnum Qden] in E.
    assert (0 < 2 ^ t) by now apply Z.pow_pos_nonneg.
    assert (0 < 2 ^ 52) by now apply Z.pow_pos_nonneg. nia. }
  apply Qle_antisym.
  - apply fl_le_dbl; try lia. rewrite E. apply Qle_refl.
  - apply fl_ge_dbl; try lia. rewrite E. apply Qle_refl.
Qed.

Lemma fl_zero (q : Q) : (q == 0)%Q -> (fl q == 0)%Q.
Proof.
  destruct q as [n d]. unfold Qeq. cbn [Qnum Qden]. intros H.
  assert (n = 0) by lia. subst n. rewrite fl_unfold. reflexivity.
Qed.

(** Whole numbers below [2^53] are doubles. *)
Lemma fl_int (q : Q) (m : Z) :
  0 <= m < 2 ^ 53 -> (q == inject_Z m)%Q -> (fl q == inject_Z m)%Q.
Proof.
  intros Hm E. destruct (Z.eq_dec m 0) as [-> | Hz]; [now apply fl_zero|].
  pose proof (Z.log2_spec m ltac:(lia)) as [L1 L2].
  pose proof (Z.log2_nonneg m) as L0.
  assert (L3 : Z.log2 m < 53) by (apply Z.log2_lt_pow2; lia).
  set (l := Z.log2 m) in *.
  assert (D : (dbl (m * 2 ^ (52 - l)) (1022 + l) == inject_Z m)%Q).
  { unfold dbl, Qeq, inject_Z. cbn [Qnum Qden]. rewrite steps_eq.
    rewrite Z.mul_1_r, <- Z.mul_assoc, <- Z.pow_add_r by lia.
    do 2 f_equal. lia. }
  rewrite <- D. apply fl_exact; [lia | | now rewrite D].
  assert (0 < 2 ^ (52 - l)) by (apply Z.pow_pos_nonneg; lia).
  assert (E52 : 2 ^ 52 = 2 ^ l * 2 ^ (52 - l))
    by (rewrite <- Z.pow_add_r by lia; f_equal; lia).
  assert (E53 : 2 ^ 53 = 2 ^ Z.succ l * 2 ^ (52 - l))
    by (rewrite <- Z.pow_add_r by lia; f_equal; lia).
  rewrite E52, E53. split; nia.
Qed.

Lemma fl_nonpos (n : Z) (d : positive) : n <= 0 -> (fl (n # d) <= 0)%Q.
Proof.
  intros H. rewrite fl_unfold. unfold Qle. cbn [Qnum Qden].
  assert (0 <= round_ne (Z.abs n * 2 ^ 1074)
                 (d * Z.to_pos (2 ^ ulp_w (Z.abs n) d))).
  { apply round_ne_ge. assert (0 < 2 ^ 1074) by now apply Z.pow_pos_nonneg.
    nia. }
  assert (0 < 2 ^ ulp_w (Z.abs n) d)
    by (apply Z.pow_pos_nonneg; [lia | apply ulp_w_nonneg]).
  assert (Z.sgn n <= 0) by (destruct n; simpl; lia).
  nia.
Qed.

(** A double above another one is at least the next one. *)
Lemma double_succ (x : Q) (z t : Z) :
  0 <= t -> 2 ^ 52 <= z < 2 ^ 53 ->
  is_double x = true -> (dbl z t < x)%Q -> (dbl (z + 1) t <= x)%Q.
Proof.
  intros Ht Hz Hd Hx. apply Qeq_bool_eq in Hd.
  destruct (Qlt_le_dec x (dbl (z + 1) t)) as [Hlt | Hge]; [|exact Hge].
  exfalso. destruct x as [n d]. rewrite fl_unfold in Hd.
  unfold dbl, Qlt, Qeq in *. cbn [Qnum Qden] in *. rewrite steps_eq in *.
  assert (HP : 0 < 2 ^ 1074) by now apply Z.pow_pos_nonneg.
  assert (HT : 0 < 2 ^ t) by now apply Z.pow_pos_nonneg.
  assert (HB : 0 < 2 ^ 52) by now apply Z.pow_pos_nonneg.
  assert (H53 : 2 ^ 53 = 2 * 2 ^ 52) by reflexivity.
  assert (Hn : 0 < n) by nia.
  rewrite Z.sgn_pos, Z.abs_eq in Hd by lia.
  assert (Hw : ulp_w n d = t).
  { apply Z.le_antisymm.
    - apply ulp_w_le; [lia | lia |]. rewrite scale_eq.
      replace (t + 105) with (t + (53 + 52)) by lia.
      rewrite !Z.pow_add_r by lia.
      set (P := 2 ^ 1074) in *. set (A := 2 ^ t) in *.
      set (B := 2 ^ 52) in *. set (C := 2 ^ 53) in *. nia.
    - apply ulp_w_ge; [lia|]. rewrite scale_eq.
      replace (t + 104) with (t + (52 + 52)) by lia.
      rewrite !Z.pow_add_r by lia.
      set (P := 2 ^ 1074) in *. set (A := 2 ^ t) in *.
      set (B := 2 ^ 52) in *. nia. }
  rewrite Hw in Hd. set (k := round_ne _ _) in *.
  set (P := 2 ^ 1074) in *. set (A := 2 ^ t) in *.
  assert (z * (A * Z.pos d) < k * (A * Z.pos d)) by lia.
  assert (k * (A * Z.pos d) < (z + 1) * (A * Z.pos d)) by lia.
  assert (0 < A * Z.pos d) by lia.
  assert (z < k) by nia. assert (k < z + 1) by nia. lia.
Qed.

Lemma steps_split : 2 ^ 1074 = 2 ^ 48 * 2 ^ 1026.
Proof. now rewrite <- Z.pow_add_r. Qed.

Lemma div60 (n : Z) (d : positive) :
  ((n # d) / inject_Z 60)%Q = (n * 1) # (d * 60).
Proof. reflexivity. Qed.

(** Above 1800 seconds a double gives more than 30 minutes ... *)
Lemma duration_over (x : Q) :
  is_double x = true -> (inject_Z 1800 < x)%Q ->
  Qlt_bool (inject_Z 30) (fdiv x (inject_Z 60)) = true.
Proof.
  intros Hd Hx.
  assert (S : (dbl (1800 * 2 ^ 42 + 1) 1032 <= x)%Q).
  { apply double_succ; [lia | split; [now vm_compute | reflexivity]
                        | exact Hd |].
    assert (E : (dbl (1800 * 2 ^ 42) 1032 == inject_Z 1800)%Q).
    { unfold dbl, Qeq, inject_Z. cbn [Qnum Qden]. rewrite steps_eq.
      rewrite Z.mul_1_r, <- Z.mul_assoc, <- Z.pow_add_r by lia.
      reflexivity. }
    now rewrite E. }
  unfold Qlt_bool. apply negb_true_iff.
  destruct (Qle_bool (fdiv x (inject_Z 60)) (inject_Z 30)) eqn:C;
    [exfalso | reflexivity].
  apply Qle_bool_iff in C. destruct x as [n d].
  unfold fdiv in C. rewrite div60 in C.
  assert (HR : 0 < 2 ^ 1026) by now apply Z.pow_pos_nonneg.
  assert (Hn : 0 < n).
  { unfold Qlt in Hx. cbn [Qnum Qden inject_Z] in Hx. lia. }
  assert (G : (dbl (30 * 2 ^ 48 + 1) 1026 <= fl ((n * 1) # (d * 60)))%Q).
  { apply fl_ge_dbl; [lia | lia | split; [now vm_compute | reflexivity] |].
    unfold dbl, Qle in *. cbn [Qnum Qden] in *. rewrite steps_eq in *.
    rewrite steps_split in *.
    replace (2 ^ 1032) with (2 ^ 6 * 2 ^ 1026) in S
      by now rewrite <- Z.pow_add_r.
    rewrite Pos2Z.inj_mul.
    set (R := 2 ^ 1026) in *.
    change (2 ^ 48) with 281474976710656 in *.
    change (2 ^ 42) with 4398046511104 in *.
    change (2 ^ 6) with 64 in *. nia. }
  pose proof (Qle_trans _ _ _ G C) as F.
  unfold dbl, Qle, inject_Z in F. cbn [Qnum Qden] in F.
  rewrite steps_eq, steps_split in F. set (R := 2 ^ 1026) in *.
  change (2 ^ 48) with 281474976710656 in *. nia.
Qed.

(** ... and at 1800 seconds or below any number gives at most 30. *)
Lemma duration_within (x : Q) :
  (x <= inject_Z 1800)%Q ->
  Qlt_bool (inject_Z 30) (fdiv x (inject_Z 60)) = false.
Proof.
  intros Hx. unfold Qlt_bool. apply negb_false_iff. apply Qle_bool_iff.
  destruct x as [n d]. unfold fdiv. rewrite div60.
  destruct (Z_lt_le_dec 0 n) as [Hn | Hn].
  - assert (E : (dbl (30 * 2 ^ 48) 1026 == inject_Z 30)%Q).
    { unfold dbl, Qeq, inject_Z. cbn [Qnum Qden]. rewrite steps_eq.
      rewrite Z.mul_1_r, <- Z.mul_assoc, <- Z.pow_add_r by lia.
      reflexivity. }
    rewrite <- E. apply fl_le_dbl; [lia | lia | split; now vm_compute |].
    rewrite E. unfold Qle, inject_Z in *. cbn [Qnum Qden] in *.
    rewrite Pos2Z.inj_mul. lia.
  - apply Qle_trans with 0%Q; [apply fl_nonpos; lia | discriminate].
Qed.

Lemma py_int_Z (z : Z) : py_int (inject_Z z) = z.
Proof.
  unfold py_int. destruct (Qle_bool 0 (inject_Z z));
    [apply Qfloor_Z | apply Qceiling_Z].
Qed.

Section Timestamp.

Variables (n : Z) (d : positive).
Hypothesis Hn : 0 <= n.
Hypothesis Hb : n < 2 ^ 53 * Z.pos d.

Local Abbreviation r := (whole_seconds n d).
Local Abbreviation K := (whole_minutes n d).
Local Abbreviation m := (exact_remainder n d).

Lemma r_bounds : 0 <= r < 2 ^ 53 /\ 0 <= K /\ 0 <= r - 60 * K < 60.
Proof.
  unfold whole_minutes, whole_seconds.
  pose proof (Z.div_pos n (Z.pos d) Hn ltac:(lia)).
  assert (n / Z.pos d < 2 ^ 53) by (apply Z.div_lt_upper_bound; lia).
  pose proof (Z.div_pos (n / Z.pos d) 60 ltac:(lia) ltac:(lia)).
  pose proof (Z.mod_pos_bound (n / Z.pos d) 60 ltac:(lia)).
  pose proof (Z.div_mod (n / Z.pos d) 60 ltac:(lia)). lia.
Qed.

Lemma fmod_value : fmod (n # d) (inject_Z 60) = m.
Proof.
  unfold fmod, exact_remainder. do 3 f_equal. rewrite div60. unfold py_int.
  replace (Qle_bool 0 ((n * 1) # (d * 60))) with true
    by (symmetry; apply Qle_bool_iff; unfold Qle; cbn [Qnum Qden]; lia).
  unfold Qfloor, whole_minutes, whole_seconds.
  rewrite Z.mul_1_r, Pos2Z.inj_mul, Z.div_div; lia.
Qed.

Lemma m_num :
  m = (n * Z.pos (1 * 1) + - (60 * K) * Z.pos d) # (d * (1 * 1)).
Proof. reflexivity. Qed.

Lemma m_floor : Qfloor m = r - 60 * K.
Proof.
  rewrite m_num. unfold Qfloor.
  replace (Z.pos (d * (1 * 1))) with (Z.pos d) by lia.
  replace (n * Z.pos (1 * 1) + - (60 * K) * Z.pos d)
    with (n + (- (60 * K)) * Z.pos d) by lia.
  rewrite Z.div_add by lia. fold (whole_seconds n d). lia.
Qed.

Lemma m_nonneg : Qle_bool 0 m = true.
Proof.
  apply Qle_bool_iff. rewrite m_num. unfold Qle. cbn [Qnum Qden].
  pose proof r_bounds as [_ [HK Hs]]. unfold whole_seconds in *.
  pose proof (Z.mul_div_le n (Z.pos d) ltac:(lia)). nia.
Qed.

Lemma x_minus_m : ((n # d) - m == inject_Z (60 * K))%Q.
Proof.
  rewrite m_num. unfold Qeq, Qminus, Qplus, Qopp, inject_Z.
  cbn [Qnum Qden]. rewrite !Pos2Z.inj_mul. ring.
Qed.

Lemma seconds_value : py_int (mod60 (n # d)) = r - 60 * K.
Proof.
  unfold mod60, float_mod. rewrite fmod_value.
  change (is_neg (inject_Z 60)) with false.
  unfold is_neg. rewrite m_nonneg. cbn [negb xorb].
  destruct (is_zero m) eqn:Z0.
  - apply Qeq_bool_eq in Z0. rewrite <- m_floor, Z0. reflexivity.
  - unfold py_int. rewrite m_nonneg. apply m_floor.
Qed.

Lemma minutes_value : py_int (floordiv60 (n # d)) = K.
Proof.
  pose proof r_bounds as [Hr [HK Hs]].
  unfold floordiv60, float_floordiv. rewrite fmod_value.
  change (is_neg (inject_Z 60)) with false.
  unfold is_neg. rewrite m_nonneg. cbn [negb xorb]. rewrite andb_false_r.
  assert (S : (fsub (n # d) m == inject_Z (60 * K))%Q).
  { unfold fsub. apply fl_int; [lia | apply x_minus_m]. }
  assert (D : (fdiv (fsub (n # d) m) (inject_Z 60) == inject_Z K)%Q).
  { unfold fdiv. apply fl_int; [lia|]. rewrite S.
    unfold Qeq, Qdiv, Qmult, Qinv, inject_Z. cbn [Qnum Qden]. lia. }
  set (div := fdiv (fsub (n # d) m) (inject_Z 60)) in *.
  unfold is_zero. destruct (Qeq_bool div 0) eqn:Z0.
  - apply Qeq_bool_eq in Z0. rewrite D in Z0.
    unfold Qeq, inject_Z in Z0. cbn [Qnum Qden] in Z0.
    change (py_int 0%Q) with 0. lia.
  - assert (F : Qfloor div = K) by (rewrite D; apply Qfloor_Z).
    rewrite F.
    assert (G : (fsub div (inject_Z K) == 0)%Q).
    { unfold fsub. apply fl_zero. rewrite D. unfold Qeq, Qminus, Qplus, Qopp.
      cbn [Qnum Qden inject_Z]. lia. }
    unfold gt_bool. rewrite G. change (Qle_bool 0 (1 # 2)) with true.
    cbn [negb]. apply py_int_Z.
Qed.

End Timestamp.

End FloatFacts.
Import FloatFacts.

(* ------------------------------------------------------------------ *)
(** ** The properties of the specification *)

Module Claims.

(** *** Chunking *)

(** C1, as stated, fails: a transcript line whose text contains the chunk
    marker is cut at the marker when the document is split again
    (line 228), and the five characters of the marker are lost. *)
Lemma chunk_reconstruction_fails_on_marker :
  0 < max_chunk_size
  /\ concat (split_chunks (format_transcript max_chunk_size [ruled]))
     <> source_text [ruled]
  /\ concat (summarised_chunks (format_transcript max_chunk_size [ruled]))
     <> source_text [ruled].
Proof.
  split; [unfold max_chunk_size; lia|].
  split; vm_compute; discriminate.
Qed.

(** C1, amended: for every budget and every transcript none of whose
    formatted lines contains the chunk marker, the pieces obtained by
    splitting the chunker's output at the marker, and likewise the pieces
    that are summarised, concatenate to the formatted lines exactly. *)
Theorem chunk_reconstruction (B : nat) (parts : list Part) :
  Forall marker_free parts ->
  concat (split_chunks (format_transcript B parts)) = source_text parts
  /\ concat (summarised_chunks (format_transcript B parts))
     = source_text parts.
Proof.
  intros F.
  assert (E : concat (split_chunks (format_transcript B parts))
              = source_text parts).
  { rewrite split_format_transcript by exact F.
    apply (concat_chunks_from B parts [] 0). }
  split; [exact E|]. rewrite <- E. unfold summarised_chunks.
  apply concat_filter_nonempty. intros c Hc.
  apply wf_blank_empty. rewrite split_format_transcript in Hc by exact F.
  assert (W : Forall wf_chunk (chunks B parts))
    by (apply wf_chunks_from; [exact F | apply wf_nil]).
  rewrite Forall_forall in W. now apply W.
Qed.

Lemma chunk_reconstruction_witness :
  Forall marker_free [hello; hello]
  /\ concat (split_chunks (format_transcript 10 [hello; hello]))
     = source_text [hello; hello].
Proof.
  assert (F : Forall marker_free [hello; hello])
    by (repeat (apply Forall_cons; [vm_compute; reflexivity|]);
        apply Forall_nil).
  split; [exact F | exact (proj1 (chunk_reconstruction 10 _ F))].
Defined.

(** Whatever the document, gluing the split pieces back with the marker
    gives the document again. *)
Lemma split_chunks_rejoin (content : str) :
  join marker (split_chunks content) = content.
Proof. apply join_split. discriminate. Qed.

(** C2: the chunker's output is its chunks glued with the marker; the
    chunks are the texts of consecutive groups of whole lines, so no line
    is ever cut; every chunk is within the budget or is a single oversized
    line; and an oversized line always forms one chunk of its own, the
    chunks before it holding exactly the lines before it and the chunks
    after it the lines after it.  When no line contains the marker these
    chunks are the pieces the summariser splits out. *)
Theorem chunk_bound (B : nat) (parts : list Part) :
  format_transcript B parts = join marker (chunks B parts)
  /\ (exists groups,
        concat groups = parts /\ chunks B parts = map source_text groups)
  /\ Forall (within_budget B parts) (chunks B parts)
  /\ (forall before p after,
        parts = before ++ p :: after ->
        B < length (text_with_timestamp p) ->
        exists l1 l2,
          chunks B parts = l1 ++ text_with_timestamp p :: l2
          /\ concat l1 = source_text before
          /\ concat l2 = source_text after)
  /\ (Forall marker_free parts ->
      split_chunks (format_transcript B parts) = chunks B parts).
Proof.
  split; [apply format_transcript_join|].
  split; [apply (chunks_from_groups B parts [] 0)|].
  split.
  { apply chunks_from_bound; [apply incl_refl | reflexivity | left].
    simpl. lia. }
  split; [|apply split_format_transcript].
  intros before p after -> Big.
  apply (oversized_alone B p after Big before [] 0).
Qed.

Lemma chunk_bound_witness :
  exists l1 l2,
    chunks 10 [hello; hello] = l1 ++ text_with_timestamp hello :: l2
    /\ concat l1 = source_text [hello]
    /\ concat l2 = source_text [].
Proof.
  refine (proj1 (proj2 (proj2 (proj2 (chunk_bound 10 [hello; hello]))))
            [hello] hello [] eq_refl _).
  vm_compute. repeat constructor.
Defined.

(** *** The reducer *)

(** C3: when the first pass yields exactly one summary, [generate_summary]
    returns it unchanged, and the only LLM call of the run is the
    first-pass call that produced it. *)
Theorem single_segment_short_circuit (w : World) (docs : list Document)
    (prompt : str) (s s' : session) (x : str) :
  summarize_docs w prompt docs [] s = (Return [x], s') ->
  generate_summary w docs prompt s = (Return x, s')
  /\ exists chunk,
       segments docs = [chunk]
       /\ llm_complete w (llm_calls s) (prompt, chunk) = Return x
       /\ s' = with_calls s [(prompt, chunk)].
Proof.
  intros H. split.
  - apply generate_summary_of_try.
    now rewrite (generate_summary_try_of_docs _ _ _ _ _ _ H).
  - apply summarize_docs_ok in H. destruct H as [sums [E [A ->]]].
    simpl in E. subst sums.
    inversion A as [|? c cs r rs Hc A']; subst.
    inversion A'; subst. exists c. repeat split. exact Hc.
Qed.

Lemma single_segment_short_circuit_witness :
  generate_summary (one_page (lit "some page"))
    [ {| page_content := lit "some page" |} ] prompt_template session0
  = (Return (lit "summary"),
     with_calls session0 [(prompt_template, lit "some page")]).
Proof.
  exact (proj1 (single_segment_short_circuit (one_page (lit "some page"))
                  [ {| page_content := lit "some page" |} ] prompt_template
                  session0
                  (with_calls session0 [(prompt_template, lit "some page")])
                  (lit "summary") eq_refl)).
Defined.

(** C4, as stated, fails: on a document with no content
    [generate_summary] raises nothing; it returns a string. *)
Lemma empty_input_returns_a_string :
  generate_summary base_world [ {| page_content := [] |} ] prompt_template
    session0
  = (Return index_error_message, session0)
  /\ ~ (exists e,
          fst (generate_summary base_world [ {| page_content := [] |} ]
                 prompt_template session0) = Raise e).
Proof.
  split; [reflexivity|]. intros [e H]. discriminate H.
Qed.

(** C4, amended: when the first pass yields no summary, no LLM call has
    been made, [generate_summary] returns the message of the caught
    exception, which starts with "Error generating summary: ", and the
    handler shows that message as an error: no summary is displayed and
    no download is offered. *)
Theorem empty_input_reports_error (w : World) (generic_url : str)
    (docs : list Document) (s s' : session) :
  docs <> [] ->
  summarize_docs w prompt_template docs [] s = (Return [], s') ->
  s' = s
  /\ generate_summary w docs prompt_template s
     = (Return index_error_message, s)
  /\ startswith (lit "Error generating summary: ") index_error_message = true
  /\ present w generic_url docs s
     = (Return tt, with_ui s [st_error index_error_message]).
Proof.
  intros Hd H.
  assert (Es : s' = s).
  { apply summarize_docs_ok in H. destruct H as [sums [E [A ->]]].
    simpl in E. subst sums. apply answers_length in A.
    destruct (segments docs); [apply with_calls_nil | discriminate A]. }
  subst s'.
  assert (G : generate_summary w docs prompt_template s
              = (Return index_error_message, s)).
  { unfold generate_summary, try_except.
    now rewrite (generate_summary_try_of_docs _ _ _ _ _ _ H). }
  repeat split; [exact G | ].
  destruct docs as [|doc docs]; [congruence|].
  unfold present, bind. rewrite G. reflexivity.
Qed.

Lemma empty_input_reports_error_witness :
  present base_world page_url [ {| page_content := [] |} ] session0
  = (Return tt, with_ui session0 [st_error index_error_message]).
Proof.
  refine (proj2 (proj2 (proj2
    (empty_input_reports_error base_world page_url
       [ {| page_content := [] |} ] session0 session0 _ eq_refl)))).
  discriminate.
Defined.

(** C6: when the first pass yields more than one summary, these are the
    LLM's answers to the summarised chunks taken in document order, and
    the text of the synthesis call, which comes last, is these summaries
    in that order with a blank line (two line feeds) after each one but
    the last: every summary but the last followed by the two line feeds,
    concatenated in order, then the last summary.  For three summaries
    [a], [b], [c] the text is [a], two line feeds, [b], two line feeds,
    [c]. *)
Theorem order_preservation (w : World) (docs : list Document) (prompt : str)
    (s s' : session) (all : list str) :
  summarize_docs w prompt docs [] s = (Return all, s') ->
  1 < length all ->
  answers w prompt (llm_calls s) (segments docs) all
  /\ (exists out,
        generate_summary w docs prompt s
        = (Return out,
           with_calls s
             (map (pair prompt) (segments docs)
                ++ [(final_template,
                     concat (map (fun x => x ++ [10; 10]%N) (removelast all))
                       ++ last all [])])))
  /\ (forall a b c : str,
        all = [a; b; c] ->
        exists out,
          generate_summary w docs prompt s
          = (Return out,
             with_calls s
               (map (pair prompt) (segments docs)
                  ++ [(final_template,
                       a ++ [10; 10]%N ++ b ++ [10; 10]%N ++ c)]))).
Proof.
  intros H L.
  pose proof (generate_summary_try_of_docs _ _ _ _ _ _ H) as T.
  apply summarize_docs_ok in H. destruct H as [sums [E [A ->]]].
  simpl in E. subst sums. split; [exact A|].
  assert (G : exists out,
             generate_summary w docs prompt s
             = (Return out,
                with_calls s
                  (map (pair prompt) (segments docs)
                     ++ [(final_template,
                          concat (map (fun x => x ++ [10; 10]%N)
                                    (removelast all))
                            ++ last all [])]))).
  { unfold generate_summary, try_except. rewrite T. unfold combine.
    apply Nat.ltb_lt in L. rewrite L, chain_run_eq, with_calls_app.
    rewrite join_closed_form by (intros ->; discriminate L).
    destruct (llm_complete w _ _); eexists; reflexivity. }
  split; [exact G|].
  intros a b c ->. destruct G as [out G]. exists out. rewrite G.
  cbn [removelast map concat last]. rewrite app_nil_r, <- !app_assoc.
  reflexivity.
Qed.

Lemma order_preservation_witness :
  answers abc_world prompt_template []
    [lit "one"; lit "two"; lit "three"] [lit "A"; lit "B"; lit "C"]
  /\ exists out,
       generate_summary abc_world [ {| page_content := three_chunks |} ]
         prompt_template session0
       = (Return out,
          with_calls session0
            [(prompt_template, lit "one"); (prompt_template, lit "two");
             (prompt_template, lit "three");
             (final_template, [65; 10; 10; 66; 10; 10; 67]%N)]).
Proof.
  assert (H : summarize_docs abc_world prompt_template
                [ {| page_content := three_chunks |} ] [] session0
              = (Return [lit "A"; lit "B"; lit "C"],
                 with_calls session0
                   (map (pair prompt_template)
                      [lit "one"; lit "two"; lit "three"])))
    by (vm_compute; reflexivity).
  assert (L : 1 < length [lit "A"; lit "B"; lit "C"]) by (simpl; lia).
  split.
  - exact (proj1 (order_preservation abc_world
                    [ {| page_content := three_chunks |} ] prompt_template
                    session0 _ _ H L)).
  - exact (proj2 (proj2 (order_preservation abc_world
                    [ {| page_content := three_chunks |} ] prompt_template
                    session0 _ _ H L)) (lit "A") (lit "B") (lit "C") eq_refl).
Defined.

(** C7: when the first pass yields more than one summary, the run makes
    exactly one further LLM call after the first-pass calls; the first-pass
    calls all use [prompt_template], the further call uses
    [final_template], which is a different text, asks to combine the
    sections and names a length of 300 words. *)
Theorem two_template_reduce (w : World) (docs : list Document)
    (s s' : session) (all : list str) :
  summarize_docs w prompt_template docs [] s = (Return all, s') ->
  1 < length all ->
  s' = with_calls s (map (pair prompt_template) (segments docs))
  /\ (exists out composite,
        generate_summary w docs prompt_template s
        = (Return out, with_calls s' [(final_template, composite)]))
  /\ final_template <> prompt_template
  /\ contains (lit "Combine") final_template = true
  /\ contains (lit "300 words") final_template = true.
Proof.
  intros H L.
  pose proof (generate_summary_try_of_docs _ _ _ _ _ _ H) as T.
  apply summarize_docs_ok in H. destruct H as [sums [E [A ->]]].
  split; [reflexivity|]. split.
  - unfold generate_summary, try_except. rewrite T. unfold combine.
    apply Nat.ltb_lt in L. rewrite L, chain_run_eq.
    destruct (llm_complete w _ _); do 2 eexists; reflexivity.
  - split; [|split; vm_compute; reflexivity].
    intros C. apply (f_equal (@length char)) in C. vm_compute in C.
    discriminate C.
Qed.

Lemma two_template_reduce_witness :
  exists out composite,
    generate_summary abc_world [ {| page_content := three_chunks |} ]
      prompt_template session0
    = (Return out,
       with_calls
         (with_calls session0
            (map (pair prompt_template) [lit "one"; lit "two"; lit "three"]))
         [(final_template, composite)]).
Proof.
  refine (proj1 (proj2
    (two_template_reduce abc_world [ {| page_content := three_chunks |} ]
       session0
       (with_calls session0
          (map (pair prompt_template) [lit "one"; lit "two"; lit "three"]))
       [lit "A"; lit "B"; lit "C"] _ _))).
  - vm_compute. reflexivity.
  - simpl. lia.
Defined.

(** *** The duration policy *)

(** When the English transcript of the video ends after 1800 seconds (the
    start being a double), [get_youtube_transcript] returns the rejection
    message, with the minutes the float division gives, and formats
    nothing. *)
Lemma duration_policy_english (w : World) (video_url video_id : str)
    (transcript_list : list Transcript) (t : Transcript) (p : Part)
    (rest : list Part) :
  extract_video_id video_url = Some video_id ->
  list_transcripts w video_id = Return transcript_list ->
  find_transcript transcript_list [lit "en"] = Return t ->
  fetch t = Return (p :: rest) ->
  is_double (start (last rest p)) = true ->
  (inject_Z 1800 < start (last rest p))%Q ->
  get_youtube_transcript w video_url
  = duration_message (fdiv (start (last rest p)) (inject_Z 60)).
Proof.
  intros Hid Hl Hf Hp Hd Hlong.
  unfold get_youtube_transcript, get_youtube_transcript_try.
  rewrite Hid. unfold get_video_duration. rewrite Hl, Hf, Hp.
  now rewrite (duration_over _ Hd Hlong).
Qed.

(** C5 fails on the code: the duration is read off the English transcript
    only.  A video whose only transcript is Spanish and whose last snippet
    starts at 3600 s is measured as 0 minutes, its transcript is returned
    and the LLM is called on it. *)
Theorem duration_policy_missed_without_english :
  (inject_Z 1800 < start adios)%Q
  /\ extract_video_id video_url = Some (lit "dQw4w9WgXcQ")
  /\ get_video_duration spanish_only (lit "dQw4w9WgXcQ") = 0%Q
  /\ get_youtube_transcript spanish_only video_url
     = source_text [hola; adios]
  /\ llm_calls (snd (summarize_button spanish_only video_url session0))
     = [(prompt_template, source_text [hola; adios])].
Proof.
  split; [unfold Qlt; simpl; lia|].
  repeat split; vm_compute; reflexivity.
Qed.

(** *** Classification of results and export *)

(** C8: once a summary without the word "Error" has been produced, the
    handler ends normally whatever the PDF library and the Latin-1
    encoding do: the page shows the summary and the text download button
    carrying the summary unchanged, then either the PDF button or the
    report of the exception; the exception is never passed on. *)
Theorem export_independence (w : World) (generic_url : str) (s : session)
    (docs : list Document) (s1 : session) (out : str) (s2 : session) :
  truthy (strip generic_url) = true ->
  validators_url w generic_url = true ->
  load_docs w generic_url (started s) = (Return docs, s1) ->
  docs <> [] ->
  generate_summary w docs prompt_template s1 = (Return out, s2) ->
  contains (lit "Error") out = false ->
  summarize_button w generic_url s
  = (Return tt,
     finished
       (with_ui s2
          ([st_markdown header; st_markdown out;
            st_download_button (inbox_tray ++ lit " Download as Text")
              (TextData out) (file_name w (lit ".txt")) (lit "text/plain")]
           ++ pdf_events w generic_url out)))
  /\ ((exists pdf_bytes label name mime,
         pdf_events w generic_url out
         = [st_download_button label (BytesData pdf_bytes) name mime])
      \/ (exists e,
            fst (make_pdf w generic_url out session0) = Raise e
            /\ pdf_events w generic_url out
               = [st_exception
                    (cross_mark ++ lit " An error occurred: " ++ exn_str e)])).
Proof.
  intros Hs Hv Hl Hd Hg He. split.
  - rewrite (button_after_summary w _ _ _ _ _ _ Hs Hv Hl Hd Hg).
    unfold shown. now rewrite He.
  - unfold pdf_events.
    destruct (fst (make_pdf w generic_url out session0)) as [b|e].
    + left. do 4 eexists. reflexivity.
    + right. exists e. split; reflexivity.
Qed.

Lemma export_independence_witness :
  summarize_button curly_world page_url session0
  = (Return tt,
     finished
       (with_ui
          (with_calls (started session0) [(prompt_template, lit "some page")])
          ([st_markdown header; st_markdown curly;
            st_download_button (inbox_tray ++ lit " Download as Text")
              (TextData curly) (file_name curly_world (lit ".txt"))
              (lit "text/plain")]
           ++ pdf_events curly_world page_url curly))).
Proof.
  refine (proj1
    (export_independence curly_world page_url session0
       [ {| page_content := lit "some page" |} ] (started session0) curly
       (with_calls (started session0) [(prompt_template, lit "some page")])
       _ _ _ _ _ _)).
  - vm_compute; reflexivity.
  - reflexivity.
  - vm_compute; reflexivity.
  - discriminate.
  - vm_compute; reflexivity.
  - vm_compute; reflexivity.
Defined.

(** C9: the handler tells failure from success by looking for "Error" in
    the result.  Whenever the [try] body of [generate_summary] completes
    (no call failed) with a summary that contains that word, the handler
    shows the summary with [st.error] and renders nothing else: no
    display of the summary, no download button. *)
Theorem error_sniffing_misclassifies (w : World) (generic_url : str)
    (s : session) (docs : list Document) (s1 : session) (out : str)
    (s2 : session) :
  truthy (strip generic_url) = true ->
  validators_url w generic_url = true ->
  load_docs w generic_url (started s) = (Return docs, s1) ->
  docs <> [] ->
  generate_summary_try w docs prompt_template s1 = (Return out, s2) ->
  contains (lit "Error") out = true ->
  summarize_button w generic_url s
  = (Return tt, finished (with_ui s2 [st_error out])).
Proof.
  intros Hs Hv Hl Hd Hg He. apply generate_summary_of_try in Hg.
  rewrite (button_after_summary w _ _ _ _ _ _ Hs Hv Hl Hd Hg).
  unfold shown. now rewrite He.
Qed.

Lemma error_sniffing_misclassifies_witness :
  summarize_button error_talk_world page_url session0
  = (Return tt,
     finished
       (with_ui
          (with_calls (started session0)
             [(prompt_template, lit "a talk about exceptions")])
          [st_error error_talk])).
Proof.
  refine (error_sniffing_misclassifies error_talk_world page_url session0
            [ {| page_content := lit "a talk about exceptions" |} ]
            (started session0) error_talk
            (with_calls (started session0)
               [(prompt_template, lit "a talk about exceptions")])
            _ _ _ _ _ _).
  - vm_compute; reflexivity.
  - reflexivity.
  - vm_compute; reflexivity.
  - discriminate.
  - vm_compute; reflexivity.
  - vm_compute; reflexivity.
Defined.

(** C10: when [get_youtube_transcript] returns "Transcripts are disabled
    for this video.", "Invalid YouTube URL" or the duration-limit message,
    the test of line 295 does not fire, the message becomes the content of
    the one document, and the run makes exactly one LLM call: the
    first-pass summarisation of the message itself. *)
Theorem unflagged_errors_are_summarised (w : World) (generic_url : str)
    (s : session) :
  truthy (strip generic_url) = true ->
  validators_url w generic_url = true ->
  is_youtube generic_url = true ->
  unflagged_error (get_youtube_transcript w generic_url) ->
  transcript_failed (get_youtube_transcript w generic_url) = false
  /\ load_docs w generic_url (started s)
     = (Return [ {| page_content := get_youtube_transcript w generic_url |} ],
        started s)
  /\ exists s3,
       summarize_button w generic_url s = (Return tt, s3)
       /\ llm_calls s3
          = llm_calls s
              ++ [(prompt_template, get_youtube_transcript w generic_url)].
Proof.
  intros Hs Hv Hy U.
  pose proof (unflagged_not_failed _ U) as Hf.
  pose proof (load_docs_youtube w generic_url (started s) Hy Hf) as Hl.
  split; [exact Hf|]. split; [exact Hl|].
  destruct (generate_summary_one_chunk w _ prompt_template (started s)
              (unflagged_one_chunk _ U) (unflagged_nonblank _ U))
    as [out Hg].
  assert (Hd : [ {| page_content := get_youtube_transcript w generic_url |} ]
               <> []) by discriminate.
  pose proof (button_after_summary w _ _ _ _ _ _ Hs Hv Hl Hd Hg) as Hb.
  eexists. split; [exact Hb | reflexivity].
Qed.

Lemma unflagged_errors_are_summarised_witness :
  get_youtube_transcript base_world video_url = disabled_message
  /\ exists s3,
       summarize_button base_world video_url session0 = (Return tt, s3)
       /\ llm_calls s3 = [(prompt_template, disabled_message)].
Proof.
  split; [vm_compute; reflexivity|].
  refine (proj2 (proj2
    (unflagged_errors_are_summarised base_world video_url session0
       _ _ _ _))).
  - vm_compute; reflexivity.
  - reflexivity.
  - vm_compute; reflexivity.
  - change (get_youtube_transcript base_world video_url)
      with disabled_message.
    constructor.
Defined.

(** The other two messages are produced too. *)
Lemma invalid_url_is_returned :
  is_youtube bare_youtube_url = true
  /\ get_youtube_transcript base_world bare_youtube_url = invalid_url_message.
Proof. split; vm_compute; reflexivity. Qed.

Lemma duration_message_is_returned :
  get_youtube_transcript english_long video_url
  = duration_message (fdiv (inject_Z 3600) (inject_Z 60))
  /\ fmt_1f (fdiv (inject_Z 3600) (inject_Z 60)) = lit "60.0".
Proof. split; vm_compute; reflexivity. Qed.

End Claims.

(* ------------------------------------------------------------------ *)
(** ** Further properties of the code *)

Module Extras.

(** *** [extract_video_id] *)

Lemma take_id_sound (n : nat) :
  forall s g,
    take_id n s = Some g ->
    length g = n /\ forallb is_id_char g = true /\ exists rest, s = g ++ rest.
Proof.
  induction n as [|n IH]; intros s g H.
  - inversion H; subst. repeat split. now exists s.
  - destruct s as [|c s]; [discriminate|]. simpl in H.
    destruct (is_id_char c) eqn:Hc; [|discriminate].
    destruct (take_id n s) as [g'|] eqn:Hg; [|discriminate].
    inversion H; subst. destruct (IH _ _ Hg) as [L [F [rest ->]]].
    simpl. rewrite Hc, L, F. repeat split. now exists rest.
Qed.

Lemma take_id_complete (g rest : str) :
  forallb is_id_char g = true -> take_id (length g) (g ++ rest) = Some g.
Proof.
  induction g as [|c g IH]; intros H; [reflexivity|].
  simpl in H. apply andb_true_iff in H. destruct H as [Hc Hg].
  simpl. now rewrite Hc, IH.
Qed.

Lemma contains_here (p s : str) : startswith p s = true -> contains p s = true.
Proof. destruct s; simpl; now intros ->. Qed.

Lemma contains_later (p pre s : str) :
  contains p s = true -> contains p (pre ++ s) = true.
Proof.
  intros H. induction pre as [|c pre IH]; [exact H|].
  simpl. rewrite IH. apply orb_true_r.
Qed.

Lemma contains_earlier (p : str) :
  forall s post, contains p s = true -> contains p (s ++ post) = true.
Proof.
  assert (S : forall q s post,
             startswith q s = true -> startswith q (s ++ post) = true).
  { induction q as [|a q IH]; intros s post H; [reflexivity|].
    destruct s as [|b s]; [discriminate|].
    rewrite startswith_cons in H. apply andb_true_iff in H.
    simpl app. rewrite startswith_cons. rewrite (proj1 H). simpl.
    apply IH, H. }
  induction s as [|c s IH]; intros post H.
  - simpl in H. rewrite orb_false_r in H. simpl app.
    apply contains_here. apply (S p [] post H).
  - change (contains p (c :: s)) with
      (startswith p (c :: s) || contains p s) in H.
    simpl app.
    change (contains p (c :: s ++ post)) with
      (startswith p (c :: s ++ post) || contains p (s ++ post)).
    apply orb_true_iff in H. destruct H as [H | H].
    + pose proof (S p (c :: s) post H) as H'. simpl app in H'.
      now rewrite H'.
    + rewrite (IH post H). apply orb_true_r.
Qed.

Lemma match_here_sound (alts : list str) (s g : str) :
  match_here alts s = Some g ->
  exists p rest,
    In p alts /\ s = p ++ g ++ rest
    /\ length g = 11 /\ forallb is_id_char g = true.
Proof.
  induction alts as [|p alts IH]; intros H; [discriminate|].
  cbn [match_here] in H. destruct (startswith p s) eqn:Hp.
  - destruct (take_id 11 (skipn (length p) s)) as [g'|] eqn:Hg.
    + inversion H; subst.
      destruct (take_id_sound _ _ _ Hg) as [L [F [rest E]]].
      exists p, rest. split; [now left|]. split; [|now split].
      rewrite <- E. now apply startswith_split.
    + destruct (IH H) as [q [rest [I R]]]. exists q, rest.
      split; [now right | exact R].
  - destruct (IH H) as [q [rest [I R]]]. exists q, rest.
    split; [now right | exact R].
Qed.

Lemma re_search_sound (alts : list str) (s g : str) :
  re_search alts s = Some g ->
  exists pre p rest,
    In p alts /\ s = pre ++ p ++ g ++ rest
    /\ length g = 11 /\ forallb is_id_char g = true.
Proof.
  induction s as [|c s IH]; intros H.
  - cbn [re_search] in H. destruct (match_here alts []) eqn:M; [|discriminate].
    inversion H; subst.
    destruct (match_here_sound _ _ _ M) as [p [rest [I [E R]]]].
    exists [], p, rest. now split.
  - cbn [re_search] in H. destruct (match_here alts (c :: s)) eqn:M.
    + inversion H; subst.
      destruct (match_here_sound _ _ _ M) as [p [rest [I [E R]]]].
      exists [], p, rest. now split.
    + destruct (IH H) as [pre [p [rest [I [E R]]]]].
      exists (c :: pre), p, rest. split; [exact I|].
      split; [simpl; now rewrite E | exact R].
Qed.

Lemma first_match_sound (pats : list (list str)) (url g : str) :
  first_match pats url = Some g ->
  exists alts, In alts pats /\ re_search alts url = Some g.
Proof.
  induction pats as [|alts pats IH]; intros H; [discriminate|].
  cbn [first_match] in H. destruct (re_search alts url) eqn:R.
  - inversion H; subst. exists alts. split; [now left | exact R].
  - destruct (IH H) as [a [I E]]. exists a. split; [now right | exact E].
Qed.

(** X1: an extracted video id is always eleven characters of the class
    [[0-9A-Za-z_-]] and is a piece of the URL. *)
Theorem extract_video_id_shape (url video_id : str) :
  extract_video_id url = Some video_id ->
  length video_id = 11
  /\ forallb is_id_char video_id = true
  /\ contains video_id url = true.
Proof.
  intros H. apply first_match_sound in H. destruct H as [alts [_ H]].
  apply re_search_sound in H.
  destruct H as [pre [p [rest [_ [E [L F]]]]]].
  split; [exact L|]. split; [exact F|]. subst url.
  apply contains_later, contains_later, contains_earlier, contains_here.
  rewrite <- (app_nil_r video_id) at 2. apply startswith_app_self.
Qed.

Lemma extract_video_id_shape_witness :
  length sample_id = 11
  /\ forallb is_id_char sample_id = true
  /\ contains sample_id video_url = true.
Proof. exact (extract_video_id_shape video_url sample_id eq_refl). Defined.

Lemma re_search_none_suffix (alts : list str) :
  forall s, re_search alts s = None ->
    forall pre t, s = pre ++ t -> match_here alts t = None.
Proof.
  induction s as [|c s IH]; intros H pre t E.
  - symmetry in E. apply app_eq_nil in E. destruct E as [_ ->].
    cbn [re_search] in H. now destruct (match_here alts []).
  - cbn [re_search] in H.
    destruct (match_here alts (c :: s)) eqn:M; [discriminate|].
    destruct pre as [|c' pre].
    + simpl in E. now subst t.
    + simpl in E. inversion E; subst. now apply (IH H pre t).
Qed.

Lemma match_after_slash (g rest : str) :
  length g = 11 -> forallb is_id_char g = true ->
  match_here first_pattern (slash :: g ++ rest) = Some g.
Proof.
  intros L F.
  change (match_here first_pattern (slash :: g ++ rest))
    with (match take_id 11 (g ++ rest) with
          | Some g' => Some g'
          | None => match_here [] (slash :: g ++ rest)
          end).
  now rewrite <- L, take_id_complete.
Qed.

Lemma match_after_v (g rest : str) :
  length g = 11 -> forallb is_id_char g = true ->
  match_here first_pattern (lit "v=" ++ g ++ rest) = Some g.
Proof.
  intros L F.
  change (match_here first_pattern (lit "v=" ++ g ++ rest))
    with (match take_id 11 (g ++ rest) with
          | Some g' => Some g'
          | None => match_here [[slash]] (lit "v=" ++ g ++ rest)
          end).
  now rewrite <- L, take_id_complete.
Qed.

(** A pattern that ends with a slash finds nothing the first pattern
    misses. *)
Lemma slash_subsumed (q s g : str) :
  re_search [q ++ [slash]] s = Some g -> re_search first_pattern s <> None.
Proof.
  intros H N. apply re_search_sound in H.
  destruct H as [pre [p [rest [I [E [L F]]]]]].
  destruct I as [<- | []].
  assert (E' : s = (pre ++ q) ++ slash :: g ++ rest)
    by (rewrite E, <- !app_assoc; reflexivity).
  apply (re_search_none_suffix _ _ N) in E'.
  now rewrite match_after_slash in E'.
Qed.

(** X2: the second and third patterns of [extract_video_id] never decide:
    the result is always that of the first pattern. *)
Theorem extract_video_id_first_pattern (url : str) :
  extract_video_id url = re_search first_pattern url.
Proof.
  unfold extract_video_id, patterns. cbn [first_match].
  change [lit "v="; lit "/"] with first_pattern.
  destruct (re_search first_pattern url) eqn:R1; [reflexivity|].
  destruct (re_search [lit "youtu.be/"] url) eqn:R2.
  - exfalso. now apply (slash_subsumed (lit "youtu.be") url s).
  - destruct (re_search [lit "youtube.com/embed/"] url) eqn:R3;
      [|reflexivity].
    exfalso. now apply (slash_subsumed (lit "youtube.com/embed") url s).
Qed.

Lemma re_search_step (alts : list str) (c : char) (s : str) :
  match_here alts (c :: s) = None ->
  re_search alts (c :: s) = re_search alts s.
Proof. intros H. cbn [re_search]. now rewrite H. Qed.

Lemma re_search_hit (alts : list str) (s g : str) :
  match_here alts s = Some g -> re_search alts s = Some g.
Proof. intros H. destruct s; cbn [re_search]; now rewrite H. Qed.

(** X3: the two usual forms of a video address give their id, whatever
    follows it. *)
Theorem usual_urls_recognised (video_id rest : str) :
  length video_id = 11 ->
  forallb is_id_char video_id = true ->
  extract_video_id (watch_prefix ++ video_id ++ rest) = Some video_id
  /\ extract_video_id (short_prefix ++ video_id ++ rest) = Some video_id.
Proof.
  intros L F. rewrite !extract_video_id_first_pattern. split.
  - unfold watch_prefix.
    let x := eval vm_compute in (lit "https://www.youtube.com/watch?") in
    change (lit "https://www.youtube.com/watch?v=")
      with (x ++ lit "v=").
    rewrite <- app_assoc. cbn [app].
    repeat (rewrite re_search_step by reflexivity).
    apply re_search_hit. now apply match_after_v.
  - unfold short_prefix.
    let x := eval vm_compute in (lit "https://youtu.be") in
    change (lit "https://youtu.be/") with (x ++ [slash]).
    rewrite <- app_assoc. cbn [app].
    repeat (rewrite re_search_step by reflexivity).
    apply re_search_hit. now apply match_after_slash.
Qed.

Lemma usual_urls_recognised_witness :
  extract_video_id (watch_prefix ++ sample_id ++ lit "&t=42s")
  = Some sample_id
  /\ extract_video_id (short_prefix ++ sample_id ++ lit "&t=42s")
     = Some sample_id.
Proof.
  exact (usual_urls_recognised sample_id (lit "&t=42s") eq_refl eq_refl).
Defined.

(** *** The timestamp of a line *)

(** X4: for a snippet whose start is not before zero and is below 2^53
    seconds, the two fields of the timestamp are the whole seconds of
    [start] split into minutes and seconds: the seconds lie between 0 and
    59 and [60 * minutes + seconds = floor(start)]; minutes are not
    wrapped into hours.  Float rounding plays no part in this range. *)
Theorem timestamp_whole_seconds (part : Part) :
  (0 <= start part)%Q ->
  (start part < inject_Z (2 ^ 53))%Q ->
  let minutes := py_int (floordiv60 (start part)) in
  let seconds := py_int (mod60 (start part)) in
  text_with_timestamp part
  = lit "[" ++ fmt_02d minutes ++ lit ":" ++ fmt_02d seconds ++ lit "] "
      ++ text part ++ nl
  /\ minutes = (Qfloor (start part) / 60)%Z
  /\ seconds = (Qfloor (start part) mod 60)%Z
  /\ (0 <= minutes)%Z
  /\ (0 <= seconds < 60)%Z
  /\ (60 * minutes + seconds = Qfloor (start part))%Z.
Proof.
  intros H Hlt. cbv zeta. split; [reflexivity|].
  destruct (start part) as [n d].
  assert (Hn : (0 <= n)%Z)
    by (unfold Qle in H; cbn [Qnum Qden] in H; lia).
  assert (Hb : (n < 2 ^ 53 * Z.pos d)%Z)
    by (unfold Qlt, inject_Z in Hlt; cbn [Qnum Qden] in Hlt; lia).
  rewrite (minutes_value n d Hn Hb), (seconds_value n d Hn Hb).
  pose proof (r_bounds n d Hn Hb) as [_ [HK Hs]].
  unfold whole_minutes, whole_seconds in *. unfold Qfloor.
  pose proof (Z.div_mod (n / Z.pos d) 60 ltac:(lia)).
  repeat split; lia.
Qed.

Lemma timestamp_whole_seconds_witness :
  py_int (floordiv60 (start hello)) = (Qfloor (start hello) / 60)%Z
  /\ py_int (mod60 (start hello)) = (Qfloor (start hello) mod 60)%Z
  /\ (0 <= py_int (floordiv60 (start hello)))%Z
  /\ (0 <= py_int (mod60 (start hello)) < 60)%Z
  /\ (60 * py_int (floordiv60 (start hello)) + py_int (mod60 (start hello))
      = Qfloor (start hello))%Z.
Proof.
  refine (proj2 (timestamp_whole_seconds hello _ _)).
  - unfold Qle. simpl. lia.
  - unfold Qlt. simpl. lia.
Defined.

(** Outside that range the float operations show: at 1e23 seconds the
    minutes are a rounded quotient, and just below zero the seconds field
    reads 60. *)
Lemma timestamp_outside_the_range :
  text_with_timestamp far = lit "[1666666666666666491904:32] far" ++ nl
  /\ text_with_timestamp early = lit "[-1:60] early" ++ nl.
Proof. split; vm_compute; reflexivity. Qed.

(** *** The chunker *)

Lemma source_text_cons (p : Part) (rest : list Part) :
  source_text (p :: rest) = text_with_timestamp p ++ source_text rest.
Proof. reflexivity. Qed.

Lemma chunks_from_fits (B : nat) (parts : list Part) :
  forall cur size,
    size = length cur ->
    length cur + length (source_text parts) <= B ->
    chunks_from B cur size parts = [cur ++ source_text parts].
Proof.
  induction parts as [|p rest IH]; intros cur size -> H.
  - simpl. now rewrite app_nil_r.
  - rewrite source_text_cons, length_app in H.
    rewrite chunks_from_cons, source_text_cons.
    replace (B <? length cur + length (twt p)) with false
      by (symmetry; apply Nat.ltb_ge; lia).
    rewrite IH; [now rewrite <- app_assoc | now rewrite length_app |].
    rewrite length_app. lia.
Qed.

(** X5: a transcript whose formatted lines fit the budget together is
    returned as it is, in one chunk and without any marker. *)
Theorem short_transcript_one_chunk (B : nat) (parts : list Part) :
  length (source_text parts) <= B ->
  format_transcript B parts = source_text parts
  /\ chunks B parts = [source_text parts].
Proof.
  intros H.
  assert (C : chunks B parts = [source_text parts])
    by (apply (chunks_from_fits B parts [] 0); [reflexivity | exact H]).
  split; [|exact C]. now rewrite format_transcript_join, C.
Qed.

Lemma short_transcript_one_chunk_witness :
  format_transcript max_chunk_size [hello; hello]
  = source_text [hello; hello].
Proof.
  refine (proj1 (short_transcript_one_chunk max_chunk_size [hello; hello] _)).
  apply Nat.leb_le. vm_compute. reflexivity.
Defined.

Lemma chunks_from_head (B : nat) (parts : list Part) :
  forall cur size c l,
    chunks_from B cur size parts = c :: l -> exists tail, c = cur ++ tail.
Proof.
  induction parts as [|p rest IH]; intros cur size c l H.
  - inversion H; subst. exists []. now rewrite app_nil_r.
  - rewrite chunks_from_cons in H.
    destruct (B <? size + length (twt p)).
    + inversion H; subst. exists []. now rewrite app_nil_r.
    + destruct (IH _ _ _ _ H) as [tail ->].
      exists (twt p ++ tail). now rewrite app_assoc.
Qed.

Lemma chunks_from_greedy (B : nat) (parts rest : list Part) :
  incl rest parts ->
  forall cur size l1 c1 c2 l2,
    size = length cur ->
    chunks_from B cur size rest = l1 ++ c1 :: c2 :: l2 ->
    exists p tail,
      In p parts /\ c2 = twt p ++ tail /\ B < length c1 + length (twt p).
Proof.
  induction rest as [|p rest IH]; intros I cur size l1 c1 c2 l2 -> H.
  - destruct l1 as [|x [|y l1]]; discriminate H.
  - assert (Ip : In p parts) by (apply I; now left).
    assert (I' : incl rest parts) by (intros q Hq; apply I; now right).
    rewrite chunks_from_cons in H.
    destruct (Nat.ltb_spec B (length cur + length (twt p))) as [L | L].
    + destruct l1 as [|x l1].
      * simpl in H. inversion H as [[E1 E2]]. subst c1.
        destruct (chunks_from_head _ _ _ _ _ _ E2) as [tail ->].
        exists p, tail. now repeat split.
      * simpl in H. inversion H as [[E1 E2]].
        apply (IH I' _ _ _ _ _ _ eq_refl E2).
    + eapply (IH I' (cur ++ twt p)); [|exact H].
      now rewrite length_app.
Qed.

(** X6: the packing is greedy: wherever one chunk ends and the next
    begins, the first line of the next chunk would not have fitted in the
    chunk before it. *)
Theorem chunks_greedy (B : nat) (parts : list Part)
    (l1 l2 : list str) (c1 c2 : str) :
  chunks B parts = l1 ++ c1 :: c2 :: l2 ->
  exists p tail,
    In p parts
    /\ c2 = text_with_timestamp p ++ tail
    /\ B < length c1 + length (text_with_timestamp p).
Proof.
  intros H.
  apply (chunks_from_greedy B parts parts (incl_refl _) [] 0 l1 c1 c2 l2
           eq_refl H).
Qed.

Lemma chunks_greedy_witness :
  exists p tail,
    In p [hello; hello]
    /\ text_with_timestamp hello = text_with_timestamp p ++ tail
    /\ 20 < length (text_with_timestamp hello)
            + length (text_with_timestamp p).
Proof.
  exact (chunks_greedy 20 [hello; hello] [] []
           (text_with_timestamp hello) (text_with_timestamp hello) eq_refl).
Defined.

(** *** [get_video_duration] and [get_youtube_transcript] *)

(** X7: with an English transcript the limit is strict and is measured at
    the start of the last snippet, a double: above 1800 s the rejection
    message is returned, with the minutes that the float division of the
    start by 60 gives, shown to one decimal place; at 1800 s or below the
    transcript is formatted and returned. *)
Theorem duration_threshold (w : World) (video_url video_id : str)
    (transcript_list : list Transcript) (t : Transcript) (p : Part)
    (rest : list Part) :
  extract_video_id video_url = Some video_id ->
  list_transcripts w video_id = Return transcript_list ->
  find_transcript transcript_list [lit "en"] = Return t ->
  fetch t = Return (p :: rest) ->
  (is_double (start (last rest p)) = true ->
   (inject_Z 1800 < start (last rest p))%Q ->
   get_youtube_transcript w video_url
   = duration_message (fdiv (start (last rest p)) (inject_Z 60)))
  /\ ((start (last rest p) <= inject_Z 1800)%Q ->
      get_youtube_transcript w video_url
      = format_transcript max_chunk_size (p :: rest)).
Proof.
  intros Hid Hl Hf Hp. split.
  - intros Hdbl Hd.
    unfold get_youtube_transcript, get_youtube_transcript_try.
    rewrite Hid. unfold get_video_duration. rewrite Hl, Hf, Hp.
    now rewrite (duration_over _ Hdbl Hd).
  - intros Hd.
    unfold get_youtube_transcript, get_youtube_transcript_try.
    rewrite Hid. unfold get_video_duration. rewrite Hl, Hf, Hp.
    now rewrite (duration_within _ Hd).
Qed.

Lemma duration_threshold_witness :
  get_youtube_transcript english_1803 video_url
  = lit "Video duration (30.1 minutes) exceeds the 30-minute limit. Please use a shorter video or segment."
  /\ get_youtube_transcript english_at_limit video_url
     = format_transcript max_chunk_size [hola; fin].
Proof.
  split.
  - refine (eq_trans
              (proj1 (duration_threshold english_1803 video_url sample_id
                        _ _ hola [late] eq_refl eq_refl eq_refl eq_refl)
                 _ _) _).
    + vm_compute. reflexivity.
    + unfold Qlt. simpl. lia.
    + vm_compute. reflexivity.
  - refine (proj2 (duration_threshold english_at_limit video_url sample_id
                     _ _ hola [fin] eq_refl eq_refl eq_refl eq_refl) _).
    unfold Qle. simpl. lia.
Defined.

Lemma find_none_raises (transcript_list : list Transcript) (code : str) :
  Forall (fun t => str_eqb (language_code t) code = false) transcript_list ->
  exists e, find_transcript transcript_list [code] = Raise e.
Proof.
  intros F. cbn [find_transcript].
  replace (find (fun t => str_eqb (language_code t) code) transcript_list)
    with (@None Transcript); [eauto|].
  symmetry. induction F as [|t l Ht _ IH]; [reflexivity|].
  simpl. now rewrite Ht.
Qed.

(** X8: when no transcript of the video is in English, no duration is
    ever checked: the first transcript listed is formatted and returned
    however long it is. *)
Theorem no_english_no_duration_check (w : World) (video_url video_id : str)
    (t : Transcript) (others : list Transcript) (parts : list Part) :
  extract_video_id video_url = Some video_id ->
  list_transcripts w video_id = Return (t :: others) ->
  Forall (fun t' => str_eqb (language_code t') (lit "en") = false)
    (t :: others) ->
  fetch t = Return parts ->
  get_video_duration w video_id = 0%Q
  /\ get_youtube_transcript w video_url
     = format_transcript max_chunk_size parts.
Proof.
  intros Hid Hl Hn Hp. destruct (find_none_raises _ _ Hn) as [e He].
  assert (D : get_video_duration w video_id = 0%Q)
    by (unfold get_video_duration; now rewrite Hl, He).
  split; [exact D|].
  unfold get_youtube_transcript, get_youtube_transcript_try.
  rewrite Hid, D, Hl, He. cbn [hd_error]. now rewrite Hp.
Qed.

Lemma no_english_no_duration_check_witness :
  get_video_duration spanish_only sample_id = 0%Q
  /\ get_youtube_transcript spanish_only video_url
     = format_transcript max_chunk_size [hola; adios].
Proof.
  refine (no_english_no_duration_check spanish_only video_url sample_id
            _ [] [hola; adios] eq_refl eq_refl _ eq_refl).
  repeat constructor.
Defined.

Lemma find_first (before after : list Transcript) (t : Transcript)
    (code : str) :
  Forall (fun u => str_eqb (language_code u) code = false) before ->
  str_eqb (language_code t) code = true ->
  find_transcript (before ++ t :: after) [code] = Return t.
Proof.
  intros F Ht. cbn [find_transcript].
  replace (find (fun u => str_eqb (language_code u) code)
             (before ++ t :: after)) with (Some t); [reflexivity|].
  symmetry. induction F as [|u l Hu _ IH].
  - simpl. now rewrite Ht.
  - simpl. now rewrite Hu.
Qed.

(** X9: how a failure of the transcript API comes out of
    [get_youtube_transcript] for a URL with a video id: an empty list of
    transcripts gives "No transcript found for this video.", an exception
    on listing gives the message of its class, and any other class gives
    "Error retrieving transcript: " followed by the exception text; so
    does an exception on fetching the transcript that is used, which is
    the first English one wherever it stands in the list, or the first
    one listed when none is English.  The exception swallowed by
    [get_video_duration] does not change this. *)
Theorem transcript_api_failures (w : World) (video_url video_id : str) :
  extract_video_id video_url = Some video_id ->
  (list_transcripts w video_id = Return [] ->
   get_youtube_transcript w video_url = no_transcript_message)
  /\ (forall e,
        list_transcripts w video_id = Raise e ->
        get_youtube_transcript w video_url
        = match exn_type e with
          | TranscriptsDisabled => disabled_message
          | NoTranscriptFound => unavailable_message
          | _ => lit "Error retrieving transcript: " ++ exn_str e
          end)
  /\ (forall before t after e,
        list_transcripts w video_id = Return (before ++ t :: after) ->
        Forall (fun u => str_eqb (language_code u) (lit "en") = false)
          before ->
        str_eqb (language_code t) (lit "en") = true ->
        fetch t = Raise e ->
        get_youtube_transcript w video_url
        = match exn_type e with
          | TranscriptsDisabled => disabled_message
          | NoTranscriptFound => unavailable_message
          | _ => lit "Error retrieving transcript: " ++ exn_str e
          end)
  /\ (forall t others e,
        list_transcripts w video_id = Return (t :: others) ->
        Forall (fun u => str_eqb (language_code u) (lit "en") = false)
          (t :: others) ->
        fetch t = Raise e ->
        get_youtube_transcript w video_url
        = match exn_type e with
          | TranscriptsDisabled => disabled_message
          | NoTranscriptFound => unavailable_message
          | _ => lit "Error retrieving transcript: " ++ exn_str e
          end).
Proof.
  intros Hid. split; [|split; [|split]].
  - intros Hl.
    unfold get_youtube_transcript, get_youtube_transcript_try,
      get_video_duration.
    rewrite Hid, Hl. reflexivity.
  - intros e Hl.
    unfold get_youtube_transcript, get_youtube_transcript_try,
      get_video_duration.
    rewrite Hid, Hl. reflexivity.
  - intros before t after e Hl F Ht Hp.
    pose proof (find_first before after t (lit "en") F Ht) as Hf.
    unfold get_youtube_transcript, get_youtube_transcript_try,
      get_video_duration.
    rewrite Hid, Hl, Hf, Hp. reflexivity.
  - intros t others e Hl F Hp.
    destruct (find_none_raises _ _ F) as [e0 Hf].
    unfold get_youtube_transcript, get_youtube_transcript_try,
      get_video_duration.
    rewrite Hid, Hl, Hf. cbn [hd_error]. rewrite Hp. reflexivity.
Qed.

Lemma transcript_api_failures_witness :
  get_youtube_transcript no_transcripts video_url = no_transcript_message
  /\ get_youtube_transcript spanish_then_broken_english video_url
     = lit "Error retrieving transcript: blocked".
Proof.
  split.
  - exact (proj1 (transcript_api_failures no_transcripts video_url
                    sample_id eq_refl) eq_refl).
  - refine (proj1 (proj2 (proj2
              (transcript_api_failures spanish_then_broken_english video_url
                 sample_id eq_refl)))
              [ {| language_code := lit "es"; fetch := Return [hola] |} ]
              {| language_code := lit "en";
                 fetch := Raise (exn_of OtherException (lit "blocked")) |}
              [] (exn_of OtherException (lit "blocked"))
              eq_refl _ eq_refl eq_refl).
    repeat constructor.
Defined.

(** *** [generate_summary] *)

Section Summariser.

Variable w : World.

Lemma segments_nonblank (docs : list Document) :
  Forall (fun c => nonblank c = true) (segments docs).
Proof.
  unfold segments, summarised_chunks.
  induction docs as [|doc docs IH]; [constructor|].
  cbn [map concat]. apply Forall_app. split; [|exact IH].
  apply Forall_forall. intros c Hc. now apply filter_In in Hc.
Qed.

Lemma summarize_chunks_filter (prompt : str) (chunks : list str) :
  forall acc s,
    summarize_chunks w prompt chunks acc s
    = summarize_chunks w prompt (filter nonblank chunks) acc s.
Proof.
  induction chunks as [|chunk rest IH]; intros acc s; [reflexivity|].
  rewrite summarize_chunks_cons. cbn [filter].
  destruct (nonblank chunk) eqn:E; [|apply IH].
  rewrite summarize_chunks_cons, E. unfold bind.
  destruct (chain_run w prompt chunk s) as [[r|e] s1]; [apply IH|reflexivity].
Qed.

Lemma summarize_chunks_app (prompt : str) (a b : list str) :
  forall acc s,
    summarize_chunks w prompt (a ++ b) acc s
    = bind (summarize_chunks w prompt a acc)
        (fun all => summarize_chunks w prompt b all) s.
Proof.
  induction a as [|chunk a IH]; intros acc s; [reflexivity|].
  simpl app. rewrite !summarize_chunks_cons.
  destruct (nonblank chunk); [|apply IH].
  unfold bind.
  destruct (chain_run w prompt chunk s) as [[r|e] s1]; [|reflexivity].
  rewrite IH. reflexivity.
Qed.

(** The two loops see the documents only through their non-blank chunks. *)
Lemma summarize_docs_segments (prompt : str) (docs : list Document) :
  forall acc s,
    summarize_docs w prompt docs acc s
    = summarize_chunks w prompt (segments docs) acc s.
Proof.
  induction docs as [|doc docs IH]; intros acc s; [reflexivity|].
  change (segments (doc :: docs))
    with (filter nonblank (split marker (page_content doc))
            ++ segments docs).
  rewrite summarize_chunks_app. cbn [summarize_docs]. unfold bind.
  rewrite summarize_chunks_filter.
  destruct (summarize_chunks w prompt
              (filter nonblank (split marker (page_content doc))) acc s)
    as [[all|e] s1]; [apply IH | reflexivity].
Qed.

(** X10: only the sequence of non-blank chunks matters: two lists of
    documents with the same non-blank chunks, however these are spread
    over the documents, give the same result and the same LLM calls. *)
Theorem document_boundaries_irrelevant (docs docs' : list Document)
    (prompt : str) (s : session) :
  segments docs = segments docs' ->
  generate_summary w docs prompt s = generate_summary w docs' prompt s.
Proof.
  intros E. unfold generate_summary, try_except, generate_summary_try, bind.
  now rewrite !summarize_docs_segments, E.
Qed.

Lemma summarize_chunks_fail (prompt : str) (pre : list str) :
  forall acc s sums c post e,
    Forall (fun c => nonblank c = true) pre ->
    nonblank c = true ->
    answers w prompt (llm_calls s) pre sums ->
    llm_complete w (llm_calls s ++ map (pair prompt) pre) (prompt, c)
    = Raise e ->
    summarize_chunks w prompt (pre ++ c :: post) acc s
    = (Raise e, with_calls s (map (pair prompt) (pre ++ [c]))).
Proof.
  induction pre as [|x pre IH]; intros acc s sums c post e F Hc A He.
  - cbn [app map] in *. rewrite app_nil_r in He.
    rewrite summarize_chunks_cons, Hc. unfold bind.
    now rewrite chain_run_eq, He.
  - inversion F as [|? ? Hx F']; subst.
    inversion A as [|? ? ? r sums' Hr A']; subst.
    simpl app. rewrite summarize_chunks_cons, Hx. unfold bind.
    rewrite chain_run_eq, Hr.
    rewrite (IH (acc ++ [r]) (with_calls s [(prompt, x)]) sums' c post e);
      try assumption.
    + now rewrite with_calls_app.
    + simpl. rewrite <- app_assoc. exact He.
Qed.

(** X11: the summariser stops at the first chunk the LLM fails on: the
    chunks after it are never sent, the summaries obtained so far are
    dropped, and the result is "Error generating summary: " followed by
    the text of the exception. *)
Theorem first_failure_ends_the_run (docs : list Document) (prompt : str)
    (s : session) (pre post sums : list str) (c : str) (e : exn) :
  segments docs = pre ++ c :: post ->
  answers w prompt (llm_calls s) pre sums ->
  llm_complete w (llm_calls s ++ map (pair prompt) pre) (prompt, c)
  = Raise e ->
  generate_summary w docs prompt s
  = (Return (lit "Error generating summary: " ++ exn_str e),
     with_calls s (map (pair prompt) (pre ++ [c]))).
Proof.
  intros E A He.
  pose proof (segments_nonblank docs) as F. rewrite E in F.
  apply Forall_app in F. destruct F as [Fpre Fc].
  inversion Fc as [|? ? Hc _]; subst.
  unfold generate_summary, try_except, generate_summary_try, bind.
  rewrite summarize_docs_segments, E.
  now rewrite (summarize_chunks_fail prompt pre [] s sums c post e).
Qed.

Lemma summarize_chunks_calls (prompt : str) (chunks : list str) :
  Forall (fun c => nonblank c = true) chunks ->
  forall acc s,
    exists k,
      k <= length chunks
      /\ snd (summarize_chunks w prompt chunks acc s)
         = with_calls s (map (pair prompt) (firstn k chunks))
      /\ (forall all,
            fst (summarize_chunks w prompt chunks acc s) = Return all ->
            k = length chunks).
Proof.
  induction 1 as [|c chunks Hc _ IH]; intros acc s.
  - exists 0. simpl. rewrite with_calls_nil. auto.
  - rewrite summarize_chunks_cons, Hc. unfold bind. rewrite chain_run_eq.
    destruct (llm_complete w (llm_calls s) (prompt, c)) as [r|e].
    + destruct (IH (acc ++ [r]) (with_calls s [(prompt, c)]))
        as [k [Hk [Hs Hr]]].
      exists (S k). split; [simpl; lia|]. split.
      * rewrite Hs, with_calls_app. reflexivity.
      * intros all Ha. simpl. f_equal. now apply (Hr all).
    + exists 1. split; [simpl; lia|]. split; [reflexivity|].
      intros all Ha. discriminate Ha.
Qed.

(** X12: whatever the LLM answers, [generate_summary] returns a string and
    its LLM calls are: the non-blank chunks in order, or a first part of
    them, with the given prompt; then, only if all of them were sent, at
    most one call with the final template.  It adds nothing to the page. *)
Theorem call_discipline (docs : list Document) (prompt : str) (s : session) :
  exists k extra out,
    k <= length (segments docs)
    /\ generate_summary w docs prompt s
       = (Return out,
          with_calls s
            (map (pair prompt) (firstn k (segments docs)) ++ extra))
    /\ (extra = []
        \/ (k = length (segments docs)
            /\ exists composite, extra = [(final_template, composite)])).
Proof.
  destruct (summarize_chunks_calls prompt (segments docs)
              (segments_nonblank docs) [] s) as [k [Hk [Hs Hr]]].
  exists k.
  unfold generate_summary, try_except, generate_summary_try, bind.
  rewrite summarize_docs_segments.
  destruct (summarize_chunks w prompt (segments docs) [] s)
    as [[all|e] s1]; simpl in Hs; subst s1.
  - specialize (Hr all eq_refl). unfold combine.
    destruct (1 <? length all).
    + rewrite chain_run_eq, with_calls_app.
      destruct (llm_complete w _ _); do 2 eexists;
        (split; [exact Hk|]); (split; [reflexivity|]); right;
        (split; [exact Hr | eexists; reflexivity]).
    + exists []. rewrite app_nil_r.
      destruct all; eexists; (split; [exact Hk|]);
        (split; [reflexivity | now left]).
  - exists []. rewrite app_nil_r. eexists. split; [exact Hk|].
    split; [reflexivity | now left].
Qed.

End Summariser.

Lemma first_failure_ends_the_run_witness :
  generate_summary failing_world [ {| page_content := three_chunks |} ]
    prompt_template session0
  = (Return (lit "Error generating summary: rate limit"),
     with_calls session0
       (map (pair prompt_template) [lit "one"; lit "two"])).
Proof.
  refine (first_failure_ends_the_run failing_world
            [ {| page_content := three_chunks |} ] prompt_template session0
            [lit "one"] [lit "three"] [lit "ok"] (lit "two")
            (exn_of OtherException (lit "rate limit")) _ _ _).
  - vm_compute. reflexivity.
  - apply answers_cons; [reflexivity | apply answers_nil].
  - reflexivity.
Defined.

Lemma document_boundaries_irrelevant_witness :
  generate_summary abc_world [ {| page_content := three_chunks |} ]
    prompt_template session0
  = generate_summary abc_world
      [ {| page_content := lit "one" |};
        {| page_content := lit "two" ++ marker ++ lit "three" |} ]
      prompt_template session0.
Proof.
  refine (document_boundaries_irrelevant abc_world _ _ prompt_template
            session0 _).
  vm_compute. reflexivity.
Defined.

(** *** The handler *)

Lemma with_ui_nil (s : session) : with_ui s [] = s.
Proof. destruct s. unfold with_ui. simpl. now rewrite app_nil_r. Qed.

Lemma error_prefix_flagged (m : str) :
  contains (lit "Error") (lit "Error generating summary: " ++ m) = true.
Proof. apply contains_here. reflexivity. Qed.

(** X13: when an LLM call fails, the handler shows
    "Error generating summary: " followed by the exception text as an
    error and shows nothing else; the exception goes no further. *)
Theorem llm_failure_shown (w : World) (generic_url : str) (s : session)
    (docs : list Document) (s1 s2 : session) (e : exn) :
  truthy (strip generic_url) = true ->
  validators_url w generic_url = true ->
  load_docs w generic_url (started s) = (Return docs, s1) ->
  docs <> [] ->
  generate_summary_try w docs prompt_template s1 = (Raise e, s2) ->
  summarize_button w generic_url s
  = (Return tt,
     finished
       (with_ui s2 [st_error (lit "Error generating summary: " ++ exn_str e)])).
Proof.
  intros Hs Hv Hl Hd Hg.
  assert (G : generate_summary w docs prompt_template s1
              = (Return (lit "Error generating summary: " ++ exn_str e), s2))
    by (unfold generate_summary, try_except; now rewrite Hg).
  rewrite (button_after_summary w _ _ _ _ _ _ Hs Hv Hl Hd G).
  unfold shown. now rewrite error_prefix_flagged.
Qed.

Lemma llm_failure_shown_witness :
  summarize_button failing_world page_url session0
  = (Return tt,
     finished
       (with_ui
          (with_calls (started session0)
             (map (pair prompt_template) [lit "one"; lit "two"]))
          [st_error (lit "Error generating summary: rate limit")])).
Proof.
  refine (llm_failure_shown failing_world page_url session0
            [ {| page_content := three_chunks |} ] (started session0)
            (with_calls (started session0)
               (map (pair prompt_template) [lit "one"; lit "two"]))
            (exn_of OtherException (lit "rate limit")) _ _ _ _ _).
  - vm_compute; reflexivity.
  - reflexivity.
  - vm_compute; reflexivity.
  - discriminate.
  - vm_compute; reflexivity.
Defined.

(** The run when no document could be loaded. *)
Lemma button_without_docs (w : World) (generic_url : str) (s s1 : session) :
  truthy (strip generic_url) = true ->
  validators_url w generic_url = true ->
  load_docs w generic_url (started s) = (Return [], s1) ->
  summarize_button w generic_url s
  = (Return tt, finished (with_ui s1 [st_error could_not_process])).
Proof.
  intros Hs Hv Hl. rewrite summarize_button_valid by assumption.
  unfold try_finally, try_except, summarize_try, bind at 1.
  change (set_processing true s) with (Return tt, started s). cbv iota beta.
  unfold bind. rewrite Hl. reflexivity.
Qed.

(** X14: a transcript result in which "Error" or "No transcript" occurs is
    reported twice: the result itself as an error, then "Could not process
    the content"; no LLM call is made. *)
Theorem fetch_failure_reported_twice (w : World) (generic_url : str)
    (s : session) :
  truthy (strip generic_url) = true ->
  validators_url w generic_url = true ->
  is_youtube generic_url = true ->
  transcript_failed (get_youtube_transcript w generic_url) = true ->
  summarize_button w generic_url s
  = (Return tt,
     finished
       (with_ui s [st_error (get_youtube_transcript w generic_url);
                   st_error could_not_process])).
Proof.
  intros Hs Hv Hy Hf.
  rewrite (button_without_docs w generic_url s
             (with_ui (started s)
                [st_error (get_youtube_transcript w generic_url)]) Hs Hv).
  - rewrite with_ui_app. reflexivity.
  - unfold load_docs. now rewrite Hy, Hf.
Qed.

Lemma fetch_failure_reported_twice_witness :
  summarize_button no_transcripts video_url session0
  = (Return tt,
     finished
       (with_ui session0
          [st_error (get_youtube_transcript no_transcripts video_url);
           st_error could_not_process])).
Proof.
  refine (fetch_failure_reported_twice no_transcripts video_url session0
            _ _ _ _).
  - vm_compute; reflexivity.
  - reflexivity.
  - vm_compute; reflexivity.
  - vm_compute; reflexivity.
Defined.

(** X15: for an address that is not a YouTube one, a failure of the page
    loader is reported twice as well, first as
    "Error processing website: " followed by the exception text; a page
    that loads into no document gives "Could not process the content"
    alone.  In both cases no LLM call is made. *)
Theorem page_failure_reported (w : World) (generic_url : str) (s : session) :
  truthy (strip generic_url) = true ->
  validators_url w generic_url = true ->
  is_youtube generic_url = false ->
  (forall e,
     loader_load w generic_url = Raise e ->
     summarize_button w generic_url s
     = (Return tt,
        finished
          (with_ui s
             [st_error (lit "Error processing website: " ++ exn_str e);
              st_error could_not_process])))
  /\ (loader_load w generic_url = Return [] ->
      summarize_button w generic_url s
      = (Return tt, finished (with_ui s [st_error could_not_process]))).
Proof.
  intros Hs Hv Hy. split.
  - intros e He.
    rewrite (button_without_docs w generic_url s
               (with_ui (started s)
                  [st_error (lit "Error processing website: " ++ exn_str e)])
               Hs Hv).
    + rewrite with_ui_app. reflexivity.
    + unfold load_docs, process_website. now rewrite Hy, He.
  - intros He.
    rewrite (button_without_docs w generic_url s (started s) Hs Hv).
    + reflexivity.
    + unfold load_docs, process_website. now rewrite Hy, He.
Qed.

Lemma page_failure_reported_witness :
  summarize_button unreachable_page page_url session0
  = (Return tt,
     finished
       (with_ui session0
          [st_error (lit "Error processing website: timed out");
           st_error could_not_process])).
Proof.
  refine (proj1 (page_failure_reported unreachable_page page_url session0
                   _ _ _)
            (exn_of OtherException (lit "timed out")) eq_refl).
  - vm_compute; reflexivity.
  - reflexivity.
  - vm_compute; reflexivity.
Defined.

Lemma chunk_loop_prefix (B : nat) (parts : list Part)
    (formatted cur : str) (size : nat) :
  exists tail, chunk_loop B formatted cur size parts = formatted ++ cur ++ tail.
Proof.
  rewrite chunk_loop_join.
  destruct (chunks_from B cur size parts) as [|c l] eqn:E.
  - now apply chunks_from_nonempty in E.
  - destruct (chunks_from_head _ _ _ _ _ _ E) as [tail ->].
    destruct l.
    + exists tail. reflexivity.
    + rewrite join_cons by discriminate. eexists.
      rewrite <- !app_assoc. reflexivity.
Qed.

(** Every line of the transcript is a piece of the formatted text. *)
Lemma chunk_loop_has_line (B : nat) (p : Part) (parts : list Part) :
  In p parts ->
  forall formatted cur size,
    exists x y,
      chunk_loop B formatted cur size parts
      = x ++ text_with_timestamp p ++ y.
Proof.
  induction parts as [|q rest IH]; intros I formatted cur size; [easy|].
  rewrite chunk_loop_cons. destruct I as [-> | I].
  - destruct (B <? size + length (twt p)).
    + destruct (chunk_loop_prefix B rest (formatted ++ cur ++ marker)
                  (twt p) (length (twt p))) as [tail ->].
      now exists (formatted ++ cur ++ marker), tail.
    + destruct (chunk_loop_prefix B rest formatted (cur ++ twt p)
                  (size + length (twt p))) as [tail ->].
      exists (formatted ++ cur), tail. now rewrite <- !app_assoc.
  - destruct (B <? size + length (twt q)); now apply IH.
Qed.

(** X16: a transcript one of whose lines has "Error" or "No transcript" in
    its text is taken for a failure by the test of line 295, whatever the
    budget and the other lines. *)
Theorem transcript_word_taken_for_failure (B : nat) (parts : list Part)
    (p : Part) :
  In p parts ->
  transcript_failed (text p) = true ->
  transcript_failed (format_transcript B parts) = true.
Proof.
  intros I H. unfold transcript_failed in *.
  destruct (chunk_loop_has_line B p parts I [] [] 0) as [x [y E]].
  unfold format_transcript. rewrite E. unfold text_with_timestamp.
  apply orb_true_iff in H. apply orb_true_iff.
  destruct H as [H | H]; [left | right];
    apply contains_later; rewrite <- !app_assoc;
    do 5 apply contains_later; now apply contains_earlier.
Qed.

Lemma transcript_word_taken_for_failure_witness :
  transcript_failed (format_transcript max_chunk_size [hola; error_lesson])
  = true.
Proof.
  refine (transcript_word_taken_for_failure max_chunk_size
            [hola; error_lesson] error_lesson _ _).
  - right. left. reflexivity.
  - vm_compute. reflexivity.
Defined.

(** X17: a video whose transcript comes back empty is not reported as
    having no content: the empty text passes the test of line 295, no LLM
    call is made and the page shows
    "Error generating summary: list index out of range". *)
Theorem empty_transcript_index_error (w : World) (generic_url : str)
    (s : session) :
  truthy (strip generic_url) = true ->
  validators_url w generic_url = true ->
  is_youtube generic_url = true ->
  get_youtube_transcript w generic_url = [] ->
  summarize_button w generic_url s
  = (Return tt, finished (with_ui s [st_error index_error_message])).
Proof.
  intros Hs Hv Hy He.
  assert (Hl : load_docs w generic_url (started s)
               = (Return [ {| page_content := [] |} ], started s)).
  { rewrite load_docs_youtube; [now rewrite He | exact Hy |].
    now rewrite He. }
  assert (Hd : [ {| page_content := @nil char |} ] <> []) by discriminate.
  assert (Hg : generate_summary w [ {| page_content := [] |} ]
                 prompt_template (started s)
               = (Return index_error_message, started s)) by reflexivity.
  rewrite (button_after_summary w _ _ _ _ _ _ Hs Hv Hl Hd Hg).
  reflexivity.
Qed.

Lemma empty_transcript_index_error_witness :
  summarize_button empty_transcript video_url session0
  = (Return tt, finished (with_ui session0 [st_error index_error_message])).
Proof.
  refine (empty_transcript_index_error empty_transcript video_url session0
            _ _ _ _).
  - vm_compute; reflexivity.
  - reflexivity.
  - vm_compute; reflexivity.
  - vm_compute; reflexivity.
Defined.

Lemma load_docs_returns (w : World) (generic_url : str) (s : session) :
  exists docs events,
    load_docs w generic_url s = (Return docs, with_ui s events).
Proof.
  unfold load_docs, process_website.
  destruct (is_youtube generic_url).
  - destruct (transcript_failed (get_youtube_transcript w generic_url)).
    + do 2 eexists. unfold bind. rewrite emit_eq. reflexivity.
    + exists [ {| page_content := get_youtube_transcript w generic_url |} ],
        []. now rewrite with_ui_nil.
  - destruct (loader_load w generic_url) as [docs|e].
    + exists docs, []. now rewrite with_ui_nil.
    + do 2 eexists. unfold bind. rewrite emit_eq. reflexivity.
Qed.

Lemma shown_nonempty (w : World) (generic_url out : str) :
  shown w generic_url out <> [].
Proof. unfold shown. destruct (contains (lit "Error") out); discriminate. Qed.

(** X18: pressing the button never lets an exception out of the handler,
    whatever the collaborators do.  What was on the page and the LLM calls
    already made stay as they were, at least one element is added to the
    page, and the processing flag ends lowered whenever the URL passed the
    two checks (otherwise it is left as it was). *)
Theorem handler_always_completes (w : World) (generic_url : str)
    (s : session) :
  exists s',
    summarize_button w generic_url s = (Return tt, s')
    /\ (exists calls, llm_calls s' = llm_calls s ++ calls)
    /\ (exists events, events <> [] /\ ui s' = ui s ++ events)
    /\ processing s'
       = if truthy (strip generic_url) && validators_url w generic_url
         then false else processing s.
Proof.
  destruct (truthy (strip generic_url)) eqn:Hs.
  - destruct (validators_url w generic_url) eqn:Hv.
    + destruct (load_docs_returns w generic_url (started s))
        as [docs [events Hl]].
      destruct docs as [|doc docs].
      * eexists. split; [apply (button_without_docs w _ _ _ Hs Hv Hl)|].
        split; [exists []; simpl; now rewrite app_nil_r|].
        split; [|reflexivity].
        exists (events ++ [st_error could_not_process]).
        split; [now destruct events | simpl; now rewrite app_assoc].
      * destruct (call_discipline w (doc :: docs) prompt_template
                    (with_ui (started s) events))
          as [k [extra [out [_ [Hg _]]]]].
        assert (Hd : doc :: docs <> []) by discriminate.
        pose proof (button_after_summary w _ _ _ _ _ _ Hs Hv Hl Hd Hg) as Hb.
        eexists. split; [exact Hb|].
        split; [eexists; reflexivity|]. split; [|reflexivity].
        exists (events ++ shown w generic_url out). split.
        { intros E. apply app_eq_nil in E.
          now apply (shown_nonempty w generic_url out). }
        simpl. now rewrite app_assoc.
    + unfold summarize_button. rewrite Hs, Hv. cbn [negb andb].
      rewrite emit_eq. eexists. split; [reflexivity|].
      split; [exists []; simpl; now rewrite app_nil_r|].
      split; [|reflexivity]. eexists. split; [|reflexivity]. discriminate.
  - unfold summarize_button. rewrite Hs. cbn [negb andb].
    rewrite emit_eq. eexists. split; [reflexivity|].
    split; [exists []; simpl; now rewrite app_nil_r|].
    split; [|reflexivity]. eexists. split; [|reflexivity]. discriminate.
Qed.

(** *** Splitting at the marker *)

Lemma startswith_app_mono (p : str) :
  forall a t, startswith p a = true -> startswith p (a ++ t) = true.
Proof.
  induction p as [|x p IH]; intros a t H; [reflexivity|].
  destruct a as [|y a]; [discriminate|].
  rewrite startswith_cons in H. apply andb_true_iff in H.
  simpl app. rewrite startswith_cons, (proj1 H). simpl. apply IH, H.
Qed.

Lemma occ_free_contains (sep cur t : str) :
  sep <> [] -> occ_free sep cur t -> contains sep cur = false.
Proof.
  intros Hsep. induction cur as [|c cur IH]; intros F.
  - destruct sep; [congruence | reflexivity].
  - change (contains sep (c :: cur))
      with (startswith sep (c :: cur) || contains sep cur).
    rewrite IH by eauto using occ_free_tail. rewrite orb_false_r.
    destruct (startswith sep (c :: cur)) eqn:E; [|reflexivity].
    apply (startswith_app_mono _ _ t) in E. simpl app in E.
    now rewrite (occ_free_head _ _ _ _ F) in E.
Qed.

Lemma occ_free_snoc (sep cur : str) (c : char) (s : str) :
  occ_free sep cur (c :: s) ->
  startswith sep (c :: s) = false ->
  occ_free sep (cur ++ [c]) s.
Proof.
  intros F Hc a1 a2 E N.
  destruct (exists_last N) as [a2' [x ->]].
  rewrite app_assoc in E. apply app_inj_tail in E. destruct E as [-> <-].
  rewrite <- app_assoc. simpl app.
  destruct a2' as [|y a2']; [exact Hc|].
  apply (F a1 (y :: a2')); [reflexivity | discriminate].
Qed.

Lemma split_from_pieces (sep : str) :
  sep <> [] ->
  forall n s, length s <= n ->
    forall cur, occ_free sep cur s ->
      Forall (fun c => contains sep c = false) (split_from sep 0 cur s).
Proof.
  intros Hsep. induction n as [|n IH]; intros s Hn cur F.
  - destruct s; [|simpl in Hn; lia].
    constructor; [|constructor]. now apply (occ_free_contains sep cur []).
  - destruct s as [|c s].
    + constructor; [|constructor]. now apply (occ_free_contains sep cur []).
    + destruct (startswith sep (c :: s)) eqn:E.
      * pose proof (startswith_split _ _ E) as D.
        assert (L : length (skipn (length sep) (c :: s)) <= n).
        { apply (f_equal (@length char)) in D. rewrite length_app in D.
          destruct sep; [congruence|]. simpl in *. lia. }
        rewrite D, split_from_sep by exact Hsep. constructor.
        -- now apply (occ_free_contains sep cur (c :: s)).
        -- apply (IH _ L). intros a1 a2 Ea Na.
           symmetry in Ea. apply app_eq_nil in Ea. tauto.
      * change (split_from sep 0 cur (c :: s))
          with (if startswith sep (c :: s)
                then cur :: split_from sep (length sep - 1) [] s
                else split_from sep 0 (cur ++ [c]) s).
        rewrite E. apply IH; [simpl in Hn; lia|].
        now apply occ_free_snoc.
Qed.

(** X20: no chunk that reaches the LLM contains the marker: the pieces of
    a document, and so the chunks that are summarised, are free of it. *)
Theorem chunks_are_marker_free (docs : list Document) :
  (forall doc,
     In doc docs ->
     Forall (fun c => contains marker c = false)
       (split_chunks (page_content doc)))
  /\ Forall (fun c => contains marker c = false) (segments docs).
Proof.
  assert (P : forall content,
             Forall (fun c => contains marker c = false)
               (split_chunks content)).
  { intros content. unfold split_chunks, split.
    apply (split_from_pieces marker ltac:(discriminate) (length content));
      [apply le_n|].
    intros a1 a2 Ea Na. symmetry in Ea. apply app_eq_nil in Ea. tauto. }
  split; [intros doc _; apply P|].
  unfold segments, summarised_chunks.
  induction docs as [|doc docs IH]; [constructor|].
  cbn [map concat]. apply Forall_app. split; [|exact IH].
  apply Forall_forall. intros c Hc. apply filter_In in Hc.
  pose proof (P (page_content doc)) as Q. rewrite Forall_forall in Q.
  now apply Q.
Qed.

End Extras.
